(** * CCF-Rank: the venue matcher and the manual override store

    A shallow embedding of [src/modules/ccfRank.ts]: the reference index
    built by the constructor of [CCFRankService], the normalisation and the
    four matching strategies of [getEntry], the field extractor
    [getEntryFromItem], the store [ManualCCFRankService] and the data
    provider of the rank column.

    Strings are sequences of code units below 256 (Rocq's [ascii]); on that
    range [toLowerCase], [trim] and the regular expressions of the source
    are modelled exactly.  The reference table [ccf-conferences.json] is
    data, not code: the constructor takes its two collections as
    arguments, and the properties hold for every table. *)

From stdpp Require Import gmap.
From Stdlib Require Import Strings.String Strings.Ascii Lists.List Arith.PeanoNat ZArith.ZArith Bool.Bool Lia.
Import ListNotations.

Local Open Scope string_scope.
Local Open Scope bool_scope.

(** ** Strings as the engine sees them *)

Module Js.

Definition code (c : ascii) : nat := nat_of_ascii c.

Definition between (lo hi n : nat) : bool := (lo <=? n)%nat && (n <=? hi)%nat.

(** White space of [String.prototype.trim] and of the class [\s]:
    TAB, LF, VT, FF, CR, SPACE and NBSP are the ones below 256. *)
Definition isSpace (c : ascii) : bool :=
  let n := code c in between 9 13 n || (n =? 32)%nat || (n =? 160)%nat.

(** The class [\d]. *)
Definition isDigit (c : ascii) : bool := between 48 57 (code c).

(** Line terminators, which [.] does not match. *)
Definition isLineTerminator (c : ascii) : bool :=
  let n := code c in (n =? 10)%nat || (n =? 13)%nat.

(** [toLowerCase] on one code unit: A-Z, and the Latin-1 capitals
    U+00C0..U+00DE except the multiplication sign U+00D7. *)
Definition lowerChar (c : ascii) : ascii :=
  let n := code c in
  if between 65 90 n || (between 192 222 n && negb (n =? 215)%nat)
  then ascii_of_nat (n + 32) else c.

(** The canonicalisation used by a regular expression with flag [i]
    (upper-casing of one code unit).  U+00B5 and U+00FF have capitals
    above 255, U+00DF has a two-letter capital: all three stay as they
    are, which keeps every comparison between code units below 256
    as the engine decides it. *)
Definition canon (c : ascii) : ascii :=
  let n := code c in
  if between 97 122 n || (between 224 254 n && negb (n =? 247)%nat)
  then ascii_of_nat (n - 32) else c.

Fixpoint toLowerCase (s : string) : string :=
  match s with
  | EmptyString => EmptyString
  | String c s' => String (lowerChar c) (toLowerCase s')
  end.

Fixpoint trimStart (s : string) : string :=
  match s with
  | EmptyString => EmptyString
  | String c s' => if isSpace c then trimStart s' else s
  end.

Fixpoint trimEnd (s : string) : string :=
  match s with
  | EmptyString => EmptyString
  | String c s' =>
      match trimEnd s' with
      | EmptyString => if isSpace c then EmptyString else String c EmptyString
      | t => String c t
      end
  end.

Definition trim (s : string) : string := trimEnd (trimStart s).

(** [s.length] *)
Definition length (s : string) : nat := String.length s.

(** [s.startsWith(k)] *)
Fixpoint startsWith (s k : string) : bool :=
  match k, s with
  | EmptyString, _ => true
  | String a k', String b s' => Ascii.eqb a b && startsWith s' k'
  | String _ _, EmptyString => false
  end.

(** [s.includes(k)]: [k] occurs in [s] at some position. *)
Fixpoint includes (s k : string) : bool :=
  startsWith s k ||
  match s with
  | EmptyString => false
  | String _ s' => includes s' k
  end.

(** Truthiness of a string: only the empty string is falsy. *)
Definition truthy (s : string) : bool :=
  match s with EmptyString => false | String _ _ => true end.

Fixpoint take (n : nat) (s : string) : string :=
  match n, s with
  | S n', String c s' => String c (take n' s')
  | _, _ => EmptyString
  end.

Fixpoint drop (n : nat) (s : string) : string :=
  match n, s with
  | S n', String _ s' => drop n' s'
  | _, _ => s
  end.

(** [s.slice(i, j)] for [i <= j]. *)
Definition slice (i j : nat) (s : string) : string := take (j - i) (drop i s).

End Js.

(** ** The regular expressions of the source

    A backtracking matcher in continuation-passing style for the fragment
    the source uses: anchors, literals, classes, sequencing, a greedy
    optional group, greedy bounded repetition of a class, and one
    capturing group. *)

Module Regex.

Inductive cls : Type :=
| Digit                              (* \d *)
| Space                              (* \s *)
| Dot                                (* .  *)
| Range (lo hi : ascii)              (* [a-z] *)
| OneOf (l : list ascii)             (* [''] *)
| NoneOf (l : list ascii).           (* [^)] *)

Inductive re : Type :=
| Bol                                (* ^ *)
| Eol                                (* $ *)
| Lit (s : string)
| Seq (r1 r2 : re)
| Opt (r : re)                       (* (r)? *)
| Rep (c : cls) (lo : nat) (hi : option nat)   (* c{lo,hi}; hi = None: no bound *)
| Cap (r : re).                      (* ( r ), the capture that is read *)

Definition inList (l : list ascii) (c : ascii) : bool :=
  existsb (Ascii.eqb c) l.

(** Membership in the set a class denotes, before inversion. *)
Definition member (c : cls) (a : ascii) : bool :=
  match c with
  | Digit => Js.isDigit a
  | Space => Js.isSpace a
  | Dot => negb (Js.isLineTerminator a)
  | Range lo hi => Js.between (Js.code lo) (Js.code hi) (Js.code a)
  | OneOf l | NoneOf l => inList l a
  end.

Definition inverted (c : cls) : bool :=
  match c with NoneOf _ => true | _ => false end.

Definition allChars : list ascii := List.map ascii_of_nat (List.seq 0 256).

(** CharacterSetMatcher: with flag [i] a code unit is in the set when its
    canonical form is that of some member of the set; inversion comes
    last. *)
Definition clsMatch (ci : bool) (c : cls) (ch : ascii) : bool :=
  let found :=
    if ci
    then existsb (fun a => member c a && Ascii.eqb (Js.canon a) (Js.canon ch)) allChars
    else member c ch in
  xorb (inverted c) found.

Definition chrMatch (ci : bool) (a ch : ascii) : bool :=
  if ci then Ascii.eqb (Js.canon a) (Js.canon ch) else Ascii.eqb a ch.

Record mstate : Type := MState {
  pos : nat;                         (* index of the next code unit *)
  rest : string;                     (* the input from [pos] on *)
  cap : option (nat * nat)           (* bounds of the capture, when set *)
}.

Definition K : Type := mstate -> option mstate.

Fixpoint lit (ci : bool) (l : string) (k : K) (p : nat) (s : string)
         (cp : option (nat * nat)) : option mstate :=
  match l with
  | EmptyString => k (MState p s cp)
  | String a l' =>
      match s with
      | String ch s' => if chrMatch ci a ch then lit ci l' k (S p) s' cp else None
      | EmptyString => None
      end
  end.

Definition more (hi : option nat) : bool :=
  match hi with Some 0 => false | _ => true end.

Definition decr (hi : option nat) : option nat :=
  match hi with Some n => Some (Nat.pred n) | None => None end.

(** Greedy repetition: take one more code unit when allowed, and fall
    back to the continuation once the lower bound is reached. *)
Fixpoint rep (ci : bool) (c : cls) (lo : nat) (hi : option nat) (k : K)
         (p : nat) (cp : option (nat * nat)) (s : string) {struct s}
  : option mstate :=
  let stop := if (lo =? 0)%nat then k (MState p s cp) else None in
  match s with
  | String ch s' =>
      if more hi && clsMatch ci c ch
      then match rep ci c (Nat.pred lo) (decr hi) k (S p) cp s' with
           | Some st => Some st
           | None => stop
           end
      else stop
  | EmptyString => stop
  end.

Fixpoint run (ci : bool) (r : re) (k : K) (st : mstate) : option mstate :=
  match r with
  | Bol => if (pos st =? 0)%nat then k st else None
  | Eol => match rest st with EmptyString => k st | String _ _ => None end
  | Lit l => lit ci l k (pos st) (rest st) (cap st)
  | Seq r1 r2 => run ci r1 (run ci r2 k) st
  | Opt r' =>
      match run ci r' k st with
      | Some st' => Some st'
      | None => k st
      end
  | Rep c lo hi => rep ci c lo hi k (pos st) (cap st) (rest st)
  | Cap r' =>
      run ci r' (fun st' => k (MState (pos st') (rest st') (Some (pos st, pos st')))) st
  end.

(** A match found by [exec]: where it starts, and the state at its end. *)
Record found : Type := Found { start : nat; final : mstate }.

Fixpoint scan (ci : bool) (r : re) (i : nat) (s : string) : option found :=
  match run ci r Some (MState i s None) with
  | Some st => Some (Found i st)
  | None =>
      match s with
      | EmptyString => None
      | String _ s' => scan ci r (S i) s'
      end
  end.

(** [re.exec(s)] without flag [g]: the leftmost match, tried from every
    index from 0 to [s.length]. *)
Definition exec (ci : bool) (r : re) (s : string) : option found := scan ci r 0 s.

(** [s.replace(re, empty)]: the first match is replaced by the empty string. *)
Definition replaceEmpty (ci : bool) (r : re) (s : string) : string :=
  match exec ci r s with
  | Some m => Js.take (start m) s ++ rest (final m)
  | None => s
  end.

(** [s.match(re)[1]]: the text of the capture of the first match. *)
Definition matchGroup (ci : bool) (r : re) (s : string) : option string :=
  match exec ci r s with
  | Some m =>
      match cap (final m) with
      | Some (i, j) => Some (Js.slice i j s)
      | None => None
      end
  | None => None
  end.

Fixpoint seq (l : list re) : re :=
  match l with
  | [] => Lit EmptyString
  | [r] => r
  | r :: l' => Seq r (seq l')
  end.

End Regex.

Import Regex.

(** ** The normalisation of [getEntry] (source lines 64-80) *)

(** [/^proceedings of (the )?\d{4}\s+(on\s+)?/i] *)
Definition reProceedingsYear : re :=
  seq [Bol; Lit "proceedings of "; Opt (Lit "the "); Rep Digit 4 (Some 4);
       Rep Space 1 None; Opt (Seq (Lit "on") (Rep Space 1 None))].

(** [/^proceedings of (the )?/i] *)
Definition reProceedings : re :=
  seq [Bol; Lit "proceedings of "; Opt (Lit "the ")].

(** [/^proc\.? of (the )?/i] *)
Definition reProc : re :=
  seq [Bol; Lit "proc"; Rep (OneOf ["."%char]) 0 (Some 1); Lit " of "; Opt (Lit "the ")].

(** [/^[a-z]+\s*['']\d{2,4}:\s*/i] *)
Definition reQuotedYear : re :=
  seq [Bol; Rep (Range "a"%char "z"%char) 1 None; Rep Space 0 None;
       Rep (OneOf ["'"%char; "'"%char]) 1 (Some 1); Rep Digit 2 (Some 4);
       Lit ":"; Rep Space 0 None].

(** [/^\d{4}\s+/] *)
Definition reLeadingYear : re :=
  seq [Bol; Rep Digit 4 (Some 4); Rep Space 1 None].

(** [/\s*\d{4}$/] *)
Definition reTrailingYear : re :=
  seq [Rep Space 0 None; Rep Digit 4 (Some 4); Eol].

(** [/\s*\([^)]*\)$/] *)
Definition reTrailingParen : re :=
  seq [Rep Space 0 None; Lit "("; Rep (NoneOf [")"%char]) 0 None; Lit ")"; Eol].

(** The seven replacements in source order, each with its flag [i]. *)
Definition stripPatterns : list (bool * re) :=
  [ (true, reProceedingsYear); (true, reProceedings); (true, reProc);
    (true, reQuotedYear); (false, reLeadingYear); (false, reTrailingYear);
    (false, reTrailingParen) ].

Definition strip (s : string) : string :=
  fold_left (fun acc p => replaceEmpty (fst p) (snd p) acc) stripPatterns s.

Definition normalize (name : string) : string :=
  Js.trim (strip (Js.toLowerCase (Js.trim name))).

(** ** A JavaScript [Map] with string keys

    Iteration follows insertion order, and [set] on a key that is present
    replaces the value where the key already stands. *)

Module JsMap.

Definition t (V : Type) : Type := list (string * V).

Definition empty {V : Type} : t V := [].

Fixpoint get {V : Type} (k : string) (m : t V) : option V :=
  match m with
  | [] => None
  | (k', v) :: m' => if String.eqb k k' then Some v else get k m'
  end.

Fixpoint set {V : Type} (k : string) (v : V) (m : t V) : t V :=
  match m with
  | [] => [(k, v)]
  | (k', v') :: m' =>
      if String.eqb k k' then (k', v) :: m' else (k', v') :: set k v m'
  end.

Definition entries {V : Type} (m : t V) : list (string * V) := m.

End JsMap.

(** ** [CCFRankService] *)

Inductive Rank : Type := A | B | C.

Definition rankString (r : Rank) : string :=
  match r with A => "A" | B => "B" | C => "C" end.

Record CCFEntry : Type := {
  abbr : string;
  fullName : string;
  rank : Rank;
  category : string
}.

(** A Zotero item as the module reads it: its id, its type tag, and
    [getField], where [None] stands for a call that throws. *)
Record Item : Type := {
  id : Z;
  itemType : string;
  getField : string -> option string
}.

Module CCFRankService.

Record t : Type := {
  conferences : list CCFEntry;
  journals : list CCFEntry;
  abbrsMap : JsMap.t CCFEntry;
  fullNamesMap : JsMap.t CCFEntry
}.

(** One step of the [forEach] of the constructor. *)
Definition indexEntry (maps : JsMap.t CCFEntry * JsMap.t CCFEntry) (entry : CCFEntry)
  : JsMap.t CCFEntry * JsMap.t CCFEntry :=
  (JsMap.set (Js.toLowerCase (abbr entry)) entry (fst maps),
   JsMap.set (Js.toLowerCase (fullName entry)) entry (snd maps)).

Definition allEntries (cs js : list CCFEntry) : list CCFEntry := (cs ++ js)%list.

(** The constructor, from the two collections of the table. *)
Definition new (cs js : list CCFEntry) : t :=
  let maps := fold_left indexEntry (allEntries cs js) (JsMap.empty, JsMap.empty) in
  {| conferences := cs; journals := js;
     abbrsMap := fst maps; fullNamesMap := snd maps |}.

(** The loop of strategies 3 and 4: the first entry, in iteration order,
    whose key is long enough and occurs in the normalised name. *)
Fixpoint firstContained (minLength : nat) (normalized : string)
         (entries : list (string * CCFEntry)) : option CCFEntry :=
  match entries with
  | [] => None
  | (key, value) :: entries' =>
      if (minLength <=? Js.length key)%nat && Js.includes normalized key
      then Some value
      else firstContained minLength normalized entries'
  end.

Definition exactAbbr (svc : t) (normalized : string) : option CCFEntry :=
  JsMap.get normalized (abbrsMap svc).

Definition exactFullName (svc : t) (normalized : string) : option CCFEntry :=
  JsMap.get normalized (fullNamesMap svc).

Definition fuzzyAbbr (svc : t) (normalized : string) : option CCFEntry :=
  firstContained 4 normalized (JsMap.entries (abbrsMap svc)).

Definition fuzzyFullName (svc : t) (normalized : string) : option CCFEntry :=
  firstContained 20 normalized (JsMap.entries (fullNamesMap svc)).

(** [getEntry]: [None] as argument is an absent name ([null] or
    [undefined]), [None] as result is [null]. *)
Definition getEntry (svc : t) (name : option string) : option CCFEntry :=
  match name with
  | None => None
  | Some name =>
      if negb (Js.truthy name) then None else
      let normalized := normalize name in
      match exactAbbr svc normalized with
      | Some entry => Some entry
      | None =>
      match exactFullName svc normalized with
      | Some entry => Some entry
      | None =>
      match fuzzyAbbr svc normalized with
      | Some value => Some value
      | None =>
      match fuzzyFullName svc normalized with
      | Some value => Some value
      | None => None
      end end end end
  end.

(** [getRank(name)] *)
Definition getRank (svc : t) (name : option string) : option Rank :=
  option_map rank (getEntry svc name).

(** The result of [getEntryFromItem] together with the names [getEntry]
    was called with, in call order. *)
Definition Traced : Type := option CCFEntry * list string.

(** Read one field and, when it is not empty, ask [getEntry]; go on with
    [next] when the field is empty or matches nothing.  A [getField] that
    throws ends in the [catch] of the method, which returns [null]. *)
Definition tryField (svc : t) (item : Item) (field : string)
           (next : list string -> Traced) (calls : list string) : Traced :=
  match getField item field with
  | None => (None, calls)
  | Some value =>
      if Js.truthy value
      then match getEntry svc (Some value) with
           | Some entry => (Some entry, (calls ++ [value])%list)
           | None => next (calls ++ [value])%list
           end
      else next calls
  end.

(** The pattern of [title.match]: an opening parenthesis, the captured
    token [[A-Z]+['']?\d*], a closing parenthesis. *)
Definition reTitleToken : re :=
  seq [Lit "(";
       Cap (seq [Rep (Range "A"%char "Z"%char) 1 None;
                 Rep (OneOf ["'"%char; "'"%char]) 0 (Some 1);
                 Rep Digit 0 None]);
       Lit ")"].

(** [/[''].*/] *)
Definition reQuoteTail : re :=
  seq [Rep (OneOf ["'"%char; "'"%char]) 1 (Some 1); Rep Dot 0 None].

(** Strategy 4 of [getEntryFromItem]: the token in parentheses in the title. *)
Definition tryTitle (svc : t) (item : Item) (calls : list string) : Traced :=
  match getField item "title" with
  | None => (None, calls)
  | Some title =>
      if Js.truthy title
      then match matchGroup false reTitleToken title with
           | Some token =>
               let name := replaceEmpty false reQuoteTail token in
               (getEntry svc (Some name), (calls ++ [name])%list)
           | None => (None, calls)
           end
      else (None, calls)
  end.

Definition getEntryFromItemTraced (svc : t) (item : option Item) : Traced :=
  match item with
  | None => (None, [])
  | Some item =>
      let generic := tryField svc item "publicationTitle" (tryTitle svc item) in
      let journal :=
        if String.eqb (itemType item) "journalArticle"
        then tryField svc item "publicationTitle" generic
        else generic in
      if String.eqb (itemType item) "conferencePaper"
      then tryField svc item "proceedingsTitle"
             (tryField svc item "publicationTitle"
                (tryField svc item "conferenceName" journal)) []
      else journal []
  end.

Definition getEntryFromItem (svc : t) (item : option Item) : option CCFEntry :=
  fst (getEntryFromItemTraced svc item).

Definition getRankFromItem (svc : t) (item : option Item) : option Rank :=
  option_map rank (getEntryFromItem svc item).

Definition getCategoryFromItem (svc : t) (item : option Item) : option string :=
  option_map category (getEntryFromItem svc item).

End CCFRankService.

(** ** [ManualCCFRankService] *)

(** The two preferences of the host the store is kept in; [None] is a
    preference that was never written.  The JSON text is identified with
    the value it encodes, and a write to the preferences succeeds. *)
Record Prefs : Type := {
  manualRanks : option (gmap Z string);
  ignoreItems : option (list Z)
}.

Module ManualCCFRankService.

Record t : Type := {
  cache : gmap Z string;
  ignoreSet : gset Z
}.

Definition loadFromStorage (prefs : Prefs) (m : t) : t :=
  let m1 :=
    match manualRanks prefs with
    | Some data => {| cache := data; ignoreSet := ignoreSet m |}
    | None => m
    end in
  match ignoreItems prefs with
  | Some ignoredIds => {| cache := cache m1; ignoreSet := list_to_set ignoredIds |}
  | None => m1
  end.

(** The constructor: empty fields, then [loadFromStorage]. *)
Definition new (prefs : Prefs) : t :=
  loadFromStorage prefs {| cache := ∅; ignoreSet := ∅ |}.

Definition saveToStorage (m : t) : Prefs :=
  {| manualRanks := Some (cache m); ignoreItems := Some (elements (ignoreSet m)) |}.

(** The mutators give the new store and the preferences they leave. *)
Definition setRank (itemID : Z) (rank : Rank) (m : t) : t * Prefs :=
  let m' := {| cache := <[itemID := rankString rank]> (cache m);
               ignoreSet := ignoreSet m ∖ {[itemID]} |} in
  (m', saveToStorage m').

Definition getRank (m : t) (itemID : Z) : option string :=
  match cache m !! itemID with
  | Some value => if Js.truthy value then Some value else None
  | None => None
  end.

Definition clearRank (itemID : Z) (m : t) : t * Prefs :=
  let m' := {| cache := delete itemID (cache m);
               ignoreSet := ignoreSet m ∖ {[itemID]} |} in
  (m', saveToStorage m').

Definition hasManualRank (m : t) (itemID : Z) : bool :=
  bool_decide (is_Some (cache m !! itemID)).

Definition ignoreItem (itemID : Z) (m : t) : t * Prefs :=
  let m' := {| cache := delete itemID (cache m);
               ignoreSet := ignoreSet m ∪ {[itemID]} |} in
  (m', saveToStorage m').

Definition isIgnored (m : t) (itemID : Z) : bool :=
  bool_decide (itemID ∈ ignoreSet m).

End ManualCCFRankService.

(** ** [CCFRankFactory]: the data provider of the rank column *)

Module CCFRankFactory.

(** [dataProvider] of the column [ccfRank]. *)
Definition rankDataProvider (ccfService : CCFRankService.t)
           (manualRankService : ManualCCFRankService.t) (item : Item) : string :=
  if ManualCCFRankService.isIgnored manualRankService (id item) then EmptyString
  else
    match ManualCCFRankService.getRank manualRankService (id item) with
    | Some manualRank => manualRank
    | None =>
        match CCFRankService.getRankFromItem ccfService (Some item) with
        | Some r => rankString r
        | None => EmptyString
        end
    end.

(** [dataProvider] of the column [ccfCategory]. *)
Definition categoryDataProvider (ccfService : CCFRankService.t)
           (manualRankService : ManualCCFRankService.t) (item : Item) : string :=
  if ManualCCFRankService.isIgnored manualRankService (id item) then EmptyString
  else
    match CCFRankService.getCategoryFromItem ccfService (Some item) with
    | Some c => if Js.truthy c then c else EmptyString
    | None => EmptyString
    end.

End CCFRankFactory.

(** ** Sessions of the override store

    The store is a module-level singleton: it is built when the plugin is
    loaded, from the preferences the previous session left, and changed by
    the three menu commands. *)

Module Session.

Record World : Type := {
  service : ManualCCFRankService.t;
  prefs : Prefs
}.

Inductive Action : Type :=
| SetRank (itemID : Z) (rank : Rank)
| ClearRank (itemID : Z)
| IgnoreItem (itemID : Z)
| Reload.

Definition commit (r : ManualCCFRankService.t * Prefs) : World :=
  {| service := fst r; prefs := snd r |}.

Definition step (w : World) (a : Action) : World :=
  match a with
  | SetRank itemID rank => commit (ManualCCFRankService.setRank itemID rank (service w))
  | ClearRank itemID => commit (ManualCCFRankService.clearRank itemID (service w))
  | IgnoreItem itemID => commit (ManualCCFRankService.ignoreItem itemID (service w))
  | Reload => {| service := ManualCCFRankService.new (prefs w); prefs := prefs w |}
  end.

(** A profile in which neither preference was ever written. *)
Definition freshPrefs : Prefs := {| manualRanks := None; ignoreItems := None |}.

Definition startup : World :=
  {| service := ManualCCFRankService.new freshPrefs; prefs := freshPrefs |}.

Definition run (actions : list Action) (w : World) : World :=
  fold_left step actions w.

(** No item has both a stored rank and the ignored status. *)
Definition exclusive (m : ManualCCFRankService.t) : Prop :=
  forall itemID : Z,
    ~ (ManualCCFRankService.hasManualRank m itemID = true /\
       ManualCCFRankService.isIgnored m itemID = true).

End Session.

(** ** Notions used in the statements *)

(** The first result that is not [null] in a list of attempts. *)
Fixpoint firstSuccess {X : Type} (attempts : list (option X)) : option X :=
  match attempts with
  | [] => None
  | Some x :: _ => Some x
  | None :: attempts' => firstSuccess attempts'
  end.

(** The four strategies of [getEntry] in the order of the source. *)
Definition strategies : list (CCFRankService.t -> string -> option CCFEntry) :=
  [ CCFRankService.exactAbbr; CCFRankService.exactFullName;
    CCFRankService.fuzzyAbbr; CCFRankService.fuzzyFullName ].

(** Every code unit of [s] satisfies [P]. *)
Fixpoint allOf (P : ascii -> Prop) (s : string) : Prop :=
  match s with
  | EmptyString => True
  | String c s' => P c /\ allOf P s'
  end.

(** [t] is what is left of [s] after some code units were read. *)
Inductive suffixOf (t : string) : string -> Prop :=
| suffix_here : suffixOf t t
| suffix_later (c : ascii) (s : string) : suffixOf t s -> suffixOf t (String c s).

(** A code unit that [toLowerCase] leaves as it is. *)
Definition lowered (c : ascii) : Prop := Js.lowerChar c = c.

(** A pattern of the normalisation finds nothing in [s]. *)
Definition unmatched (s : string) (p : bool * re) : Prop :=
  exec (fst p) (snd p) s = None.

(** ** Sample tables *)

Module Samples.

Definition cvpr : CCFEntry :=
  {| abbr := "CVPR";
     fullName := "IEEE/CVF Conference on Computer Vision and Pattern Recognition";
     rank := A; category := "Artificial Intelligence" |}.

Definition aaai : CCFEntry :=
  {| abbr := "AAAI"; fullName := "AAAI Conference on Artificial Intelligence";
     rank := A; category := "Artificial Intelligence" |}.

Definition vldb : CCFEntry :=
  {| abbr := "VLDB"; fullName := "International Conference on Very Large Data Bases";
     rank := A; category := "Databases" |}.

Definition pvldb : CCFEntry :=
  {| abbr := "PVLDB"; fullName := "Proceedings of the VLDB Endowment";
     rank := A; category := "Databases" |}.

Definition vldbj : CCFEntry :=
  {| abbr := "VLDBJ"; fullName := "The VLDB Journal";
     rank := A; category := "Databases" |}.

(** Two venues that share the abbreviation CC. *)
Definition ccConf : CCFEntry :=
  {| abbr := "CC"; fullName := "International Conference on Compiler Construction";
     rank := B; category := "Software Engineering" |}.

Definition ccJournal : CCFEntry :=
  {| abbr := "CC"; fullName := "Computational Complexity";
     rank := B; category := "Theory" |}.

(** A journal listed without an abbreviation. *)
Definition noAbbr : CCFEntry :=
  {| abbr := EmptyString; fullName := "Information and Computation";
     rank := A; category := "Theory" |}.

(** A venue whose full name is the abbreviation of another one. *)
Definition vldbNamed : CCFEntry :=
  {| abbr := "VLDBW"; fullName := "VLDB"; rank := C; category := "Databases" |}.

Definition table : CCFRankService.t :=
  CCFRankService.new [cvpr; aaai; vldb; ccConf] [pvldb; vldbj; ccJournal].

(** A conference paper whose proceedings title matches nothing and whose
    conference name is the abbreviation of a venue. *)
Definition paper : Item :=
  {| id := 7%Z; itemType := "conferencePaper";
     getField := fun field =>
       if String.eqb field "proceedingsTitle" then Some "Annual Summer Workshop"
       else if String.eqb field "conferenceName" then Some "CVPR 2024"
       else Some EmptyString |}.

End Samples.

(** ** The menu commands of [CCFRankFactory]

    [setManualRank], [clearManualRank] and [ignoreItems] apply one mutator
    of the store to every selected item, in selection order.  [None] is a
    selection that cannot be read (no active pane); the refresh of the
    item list that follows is not part of the model. *)

Module Menu.

Import Session.

Definition forEach (f : Z -> ManualCCFRankService.t -> ManualCCFRankService.t * Prefs)
           (items : list Item) (w : World) : World :=
  fold_left (fun w item => commit (f (id item) (service w))) items w.

Definition guarded (f : Z -> ManualCCFRankService.t -> ManualCCFRankService.t * Prefs)
           (selected : option (list Item)) (w : World) : World :=
  match selected with
  | None => w
  | Some items => if (List.length items =? 0)%nat then w else forEach f items w
  end.

Definition setManualRank (rank : Rank) (selected : option (list Item)) (w : World) : World :=
  guarded (fun itemID => ManualCCFRankService.setRank itemID rank) selected w.

Definition clearManualRank (selected : option (list Item)) (w : World) : World :=
  guarded ManualCCFRankService.clearRank selected w.

Definition ignoreItems (selected : option (list Item)) (w : World) : World :=
  guarded ManualCCFRankService.ignoreItem selected w.

End Menu.

(** ** Further notions used in the statements *)

(** [t] is a contiguous piece of [s]. *)
Definition infixOf (t s : string) : Prop :=
  exists pre post : string, s = pre ++ t ++ post.

(** The test of the loops of strategies 3 and 4 on one key. *)
Definition qualifies (minLength : nat) (normalized key : string) : bool :=
  (minLength <=? Js.length key)%nat && Js.includes normalized key.

(** The last entry of a table whose lower-cased field is [k]. *)
Definition lastKeyed (field : CCFEntry -> string) (k : string) (table : list CCFEntry)
  : option CCFEntry :=
  find (fun e => String.eqb k (Js.toLowerCase (field e))) (rev table).

(** An entry matches a normalised name under one of the four strategies. *)
Definition matchesEntry (normalized : string) (e : CCFEntry) : bool :=
  String.eqb normalized (Js.toLowerCase (abbr e))
  || String.eqb normalized (Js.toLowerCase (fullName e))
  || qualifies 4 normalized (Js.toLowerCase (abbr e))
  || qualifies 20 normalized (Js.toLowerCase (fullName e)).

(** A pattern that begins with [^], and one that ends with [$]. *)
Definition startsAtBol (r : re) : bool :=
  match r with Seq Bol _ => true | _ => false end.

Fixpoint endsAtEol (r : re) : bool :=
  match r with
  | Eol => true
  | Seq _ r2 => endsAtEol r2
  | _ => false
  end.

(** The name the title fallback of [getEntryFromItem] passes to [getEntry]. *)
Definition titleName (title : string) : option string :=
  option_map (replaceEmpty false CCFRankService.reQuoteTail)
             (matchGroup false CCFRankService.reTitleToken title).

(** A string is empty or begins with a code unit outside the class [c]. *)
Definition stopsAt (c : cls) (s : string) : Prop :=
  match s with
  | EmptyString => True
  | String ch _ => clsMatch false c ch = false
  end.

(** The letters A-Z. *)
Definition isCapital (c : ascii) : bool := Js.between 65 90 (Js.code c).

(** What the title fallback answers. *)
Definition titleAttempt (svc : CCFRankService.t) (title : string) : option CCFEntry :=
  match titleName title with
  | Some name => CCFRankService.getEntry svc (Some name)
  | None => None
  end.

(** The mutators among the actions of a session, with the item they touch. *)
Definition target (a : Session.Action) : option Z :=
  match a with
  | Session.SetRank itemID _ | Session.ClearRank itemID | Session.IgnoreItem itemID =>
      Some itemID
  | Session.Reload => None
  end.

(** The actions that are commands of the menu, not reloads. *)
Definition isCommand (a : Session.Action) : bool :=
  match target a with Some _ => true | None => false end.

(** Two stores hold the same for item [j]: what the columns read. *)
Definition sameFor (j : Z) (m1 m2 : ManualCCFRankService.t) : Prop :=
  ManualCCFRankService.cache m1 !! j = ManualCCFRankService.cache m2 !! j /\
  (j ∈ ManualCCFRankService.ignoreSet m1 <-> j ∈ ManualCCFRankService.ignoreSet m2).

(** * Properties *)

(** ** The map and the index *)

Section MapFacts.

Context {V : Type}.
Implicit Types (m : JsMap.t V) (k : string) (v : V).

Lemma get_set_same k v m : JsMap.get k (JsMap.set k v m) = Some v.
Proof.
  induction m as [|[k' v'] m IH]; simpl.
  - now rewrite String.eqb_refl.
  - destruct (String.eqb k k') eqn:E; simpl; rewrite E; auto.
Qed.

Lemma get_set_other k k' v m :
  k <> k' -> JsMap.get k' (JsMap.set k v m) = JsMap.get k' m.
Proof.
  intros Hne. induction m as [|[k0 v0] m IH]; simpl.
  - destruct (String.eqb k' k) eqn:E; auto.
    apply String.eqb_eq in E. congruence.
  - destruct (String.eqb k k0) eqn:E; simpl.
    + apply String.eqb_eq in E. subst k0.
      destruct (String.eqb k' k) eqn:E'; auto.
      apply String.eqb_eq in E'. congruence.
    + destruct (String.eqb k' k0); auto.
Qed.

Lemma in_set k v k0 v0 m :
  In (k, v) (JsMap.set k0 v0 m) -> (k = k0 /\ v = v0) \/ In (k, v) m.
Proof.
  induction m as [|[k1 v1] m IH]; simpl.
  - intros [H|[]]. inversion H. auto.
  - destruct (String.eqb k0 k1) eqn:E; simpl.
    + apply String.eqb_eq in E. subst k1.
      intros [H|H]; [inversion H; auto | auto].
    + intros [H|H]; [auto | destruct (IH H); auto].
Qed.

End MapFacts.

Section IndexFacts.

Import CCFRankService.

Implicit Types (maps : JsMap.t CCFEntry * JsMap.t CCFEntry) (l : list CCFEntry).

Lemma index_keep_abbr l : forall maps k,
  Forall (fun e' => Js.toLowerCase (abbr e') <> k) l ->
  JsMap.get k (fst (fold_left indexEntry l maps)) = JsMap.get k (fst maps).
Proof.
  induction l as [|e l IH]; intros maps k H; simpl; auto.
  inversion H; subst. rewrite IH by assumption.
  simpl. now apply get_set_other.
Qed.

Lemma index_keep_full l : forall maps k,
  Forall (fun e' => Js.toLowerCase (fullName e') <> k) l ->
  JsMap.get k (snd (fold_left indexEntry l maps)) = JsMap.get k (snd maps).
Proof.
  induction l as [|e l IH]; intros maps k H; simpl; auto.
  inversion H; subst. rewrite IH by assumption.
  simpl. now apply get_set_other.
Qed.

(** The binding of a key is the last entry of the table that has it. *)
Lemma index_last_abbr before e after maps :
  Forall (fun e' => Js.toLowerCase (abbr e') <> Js.toLowerCase (abbr e)) after ->
  JsMap.get (Js.toLowerCase (abbr e))
    (fst (fold_left indexEntry (before ++ e :: after)%list maps)) = Some e.
Proof.
  intros H. rewrite fold_left_app. simpl.
  rewrite index_keep_abbr by assumption. simpl. apply get_set_same.
Qed.

Lemma index_last_full before e after maps :
  Forall (fun e' => Js.toLowerCase (fullName e') <> Js.toLowerCase (fullName e)) after ->
  JsMap.get (Js.toLowerCase (fullName e))
    (snd (fold_left indexEntry (before ++ e :: after)%list maps)) = Some e.
Proof.
  intros H. rewrite fold_left_app. simpl.
  rewrite index_keep_full by assumption. simpl. apply get_set_same.
Qed.

(** Every binding of the index stands under the lower-cased field of its
    own entry. *)
Lemma index_keys l : forall maps,
  (forall k v, In (k, v) (fst maps) -> k = Js.toLowerCase (abbr v)) ->
  (forall k v, In (k, v) (snd maps) -> k = Js.toLowerCase (fullName v)) ->
  (forall k v, In (k, v) (fst (fold_left indexEntry l maps)) ->
               k = Js.toLowerCase (abbr v)) /\
  (forall k v, In (k, v) (snd (fold_left indexEntry l maps)) ->
               k = Js.toLowerCase (fullName v)).
Proof.
  induction l as [|e l IH]; intros maps Ha Hf; simpl; [auto|].
  apply IH; simpl; intros k v Hin; apply in_set in Hin;
    destruct Hin as [[-> ->]|Hin]; auto.
Qed.

Lemma new_keys cs js :
  (forall k v, In (k, v) (abbrsMap (new cs js)) -> k = Js.toLowerCase (abbr v)) /\
  (forall k v, In (k, v) (fullNamesMap (new cs js)) -> k = Js.toLowerCase (fullName v)).
Proof.
  unfold new; simpl. apply index_keys; simpl; intros k v [].
Qed.

Lemma firstContained_found n normalized entries e :
  firstContained n normalized entries = Some e ->
  exists key, In (key, e) entries /\ (n <= Js.length key)%nat /\
              Js.includes normalized key = true.
Proof.
  induction entries as [|[key value] entries IH]; simpl; [discriminate|].
  destruct ((n <=? Js.length key)%nat && Js.includes normalized key) eqn:E.
  - intros [= ->]. apply andb_true_iff in E as [E1 E2].
    apply Nat.leb_le in E1. eauto.
  - intros H. destruct (IH H) as (k & Hin & Hk). eauto.
Qed.

End IndexFacts.

(** ** The reference index and [getEntry] *)

Section Matcher.

Import CCFRankService.

(** C9.  When two entries of the table (conferences first, then journals)
    have the same lower-cased abbreviation, or the same lower-cased full
    name, the index maps that key to the later one of them, provided no
    entry after it has the key again: the later entry overwrites the
    earlier one, and building the index raises nothing. *)
Theorem index_later_entry_wins (cs js l1 l2 l3 : list CCFEntry) (e1 e2 : CCFEntry) :
  allEntries cs js = (l1 ++ e1 :: l2 ++ e2 :: l3)%list ->
  (Js.toLowerCase (abbr e1) = Js.toLowerCase (abbr e2) ->
   Forall (fun e' => Js.toLowerCase (abbr e') <> Js.toLowerCase (abbr e2)) l3 ->
   JsMap.get (Js.toLowerCase (abbr e1)) (abbrsMap (new cs js)) = Some e2) /\
  (Js.toLowerCase (fullName e1) = Js.toLowerCase (fullName e2) ->
   Forall (fun e' => Js.toLowerCase (fullName e') <> Js.toLowerCase (fullName e2)) l3 ->
   JsMap.get (Js.toLowerCase (fullName e1)) (fullNamesMap (new cs js)) = Some e2).
Proof.
  intros Hall. unfold new; simpl. rewrite Hall.
  replace (l1 ++ e1 :: l2 ++ e2 :: l3)%list with ((l1 ++ e1 :: l2) ++ e2 :: l3)%list
    by (rewrite <- app_assoc; reflexivity).
  split; intros -> Hlast.
  - now apply index_last_abbr.
  - now apply index_last_full.
Qed.

Lemma index_later_entry_wins_witness :
  JsMap.get "cc" (abbrsMap Samples.table) = Some Samples.ccJournal.
Proof.
  apply (proj1 (index_later_entry_wins
                  [Samples.cvpr; Samples.aaai; Samples.vldb; Samples.ccConf]
                  [Samples.pvldb; Samples.vldbj; Samples.ccJournal]
                  [Samples.cvpr; Samples.aaai; Samples.vldb]
                  [Samples.pvldb; Samples.vldbj] []
                  Samples.ccConf Samples.ccJournal eq_refl)).
  - reflexivity.
  - constructor.
Defined.

(** C1, as the code has it.  For an entry [E] of the table,
    [getEntry (abbr E)] returns [E] when the abbreviation is not empty,
    normalisation does no more to it than lower-casing, and no later
    entry has the same lower-cased abbreviation; [getEntry (fullName E)]
    returns [E] under the same three conditions on the full name, when
    moreover the abbreviation mapping holds no other entry under that
    key. *)
Theorem getEntry_roundtrip (cs js before after : list CCFEntry) (E : CCFEntry) :
  allEntries cs js = (before ++ E :: after)%list ->
  (Js.truthy (abbr E) = true ->
   normalize (abbr E) = Js.toLowerCase (abbr E) ->
   Forall (fun e' => Js.toLowerCase (abbr e') <> Js.toLowerCase (abbr E)) after ->
   getEntry (new cs js) (Some (abbr E)) = Some E) /\
  (Js.truthy (fullName E) = true ->
   normalize (fullName E) = Js.toLowerCase (fullName E) ->
   Forall (fun e' => Js.toLowerCase (fullName e') <> Js.toLowerCase (fullName E)) after ->
   (forall e', exactAbbr (new cs js) (Js.toLowerCase (fullName E)) = Some e' -> e' = E) ->
   getEntry (new cs js) (Some (fullName E)) = Some E).
Proof.
  intros Hall. split.
  - intros Hne Hnorm Hlast. unfold getEntry. rewrite Hne. simpl.
    rewrite Hnorm. unfold exactAbbr, new; simpl. rewrite Hall.
    now rewrite index_last_abbr.
  - intros Hne Hnorm Hlast Habbr. unfold getEntry. rewrite Hne. simpl.
    rewrite Hnorm.
    destruct (exactAbbr (new cs js) (Js.toLowerCase (fullName E))) as [e'|] eqn:Ha.
    + f_equal. now apply Habbr.
    + unfold exactFullName, new; simpl. rewrite Hall.
      now rewrite index_last_full.
Qed.

Lemma getEntry_roundtrip_witness :
  getEntry Samples.table (Some "CVPR") = Some Samples.cvpr /\
  getEntry Samples.table
    (Some "IEEE/CVF Conference on Computer Vision and Pattern Recognition")
  = Some Samples.cvpr.
Proof.
  pose proof (getEntry_roundtrip
                [Samples.cvpr; Samples.aaai; Samples.vldb; Samples.ccConf]
                [Samples.pvldb; Samples.vldbj; Samples.ccJournal]
                []
                [Samples.aaai; Samples.vldb; Samples.ccConf;
                 Samples.pvldb; Samples.vldbj; Samples.ccJournal]
                Samples.cvpr eq_refl) as [Habbr Hfull].
  split.
  - apply Habbr; [reflexivity | vm_compute; reflexivity |].
    repeat constructor; vm_compute; discriminate.
  - apply Hfull; [reflexivity | vm_compute; reflexivity | |].
    + repeat constructor; vm_compute; discriminate.
    + intros e' H. vm_compute in H. discriminate.
Defined.

(** C1 fails on a table without any repeated key: the full name of PVLDB
    loses its prefix in normalisation and what is left contains the
    abbreviation of VLDB; and on a repeated key: CC is answered with the
    journal, not with the conference. *)
Lemma getEntry_roundtrip_counterexample :
  getEntry Samples.table (Some (fullName Samples.pvldb)) = Some Samples.vldb /\
  getEntry Samples.table (Some (abbr Samples.ccConf)) = Some Samples.ccJournal /\
  ~ (forall E : CCFEntry,
       In E (allEntries (conferences Samples.table) (journals Samples.table)) ->
       getEntry Samples.table (Some (abbr E)) = Some E /\
       getEntry Samples.table (Some (fullName E)) = Some E).
Proof.
  split; [vm_compute; reflexivity|]. split; [vm_compute; reflexivity|].
  intros H.
  destruct (H Samples.pvldb) as [_ Hfull]; [simpl; tauto|].
  vm_compute in Hfull. discriminate.
Qed.

Lemma getEntry_chain (svc : t) (name : string) :
  Js.truthy name = true ->
  getEntry svc (Some name)
  = firstSuccess (List.map (fun strategy => strategy svc (normalize name)) strategies).
Proof.
  intros Hne. unfold getEntry. rewrite Hne. simpl.
  destruct (exactAbbr svc (normalize name)); [reflexivity|].
  destruct (exactFullName svc (normalize name)); [reflexivity|].
  destruct (fuzzyAbbr svc (normalize name)); [reflexivity|].
  destruct (fuzzyFullName svc (normalize name)); reflexivity.
Qed.

(** C3, as the code has it.  For a name that is not empty, [getEntry]
    returns the first result that is not [null] among exact abbreviation,
    exact full name, fuzzy abbreviation and fuzzy full name, applied in
    that order to the normalised name.  In particular, when the
    normalised name is a key of the full-name mapping and not a key of
    the abbreviation mapping, the entry of that key is returned, whatever
    the fuzzy strategies would find. *)
Theorem getEntry_strategy_order (svc : t) (name : string) :
  Js.truthy name = true ->
  getEntry svc (Some name)
  = firstSuccess (List.map (fun strategy => strategy svc (normalize name)) strategies) /\
  (forall e : CCFEntry,
      exactAbbr svc (normalize name) = None ->
      exactFullName svc (normalize name) = Some e ->
      getEntry svc (Some name) = Some e).
Proof.
  intros Hne. split; [now apply getEntry_chain|].
  intros e Ha Hf. rewrite (getEntry_chain svc name Hne). simpl.
  now rewrite Ha, Hf.
Qed.

Lemma getEntry_strategy_order_witness :
  fuzzyAbbr Samples.table (normalize "The VLDB Journal") = Some Samples.vldb /\
  getEntry Samples.table (Some "The VLDB Journal") = Some Samples.vldbj.
Proof.
  split; [vm_compute; reflexivity|].
  apply (proj2 (getEntry_strategy_order Samples.table "The VLDB Journal" eq_refl));
    vm_compute; reflexivity.
Defined.

(** C3 fails as stated when the normalised name is a key of both
    mappings: VLDB is the full name of one entry and the abbreviation of
    another, and the exact abbreviation is tried first. *)
Lemma getEntry_strategy_order_counterexample :
  let svc := new [Samples.vldb] [Samples.vldbNamed] in
  exactFullName svc (normalize "VLDB") = Some Samples.vldbNamed /\
  getEntry svc (Some "VLDB") <> Some Samples.vldbNamed.
Proof.
  split; [vm_compute; reflexivity|].
  vm_compute. discriminate.
Qed.

(** C4.  Whatever the normalised input, an entry returned by the fuzzy
    abbreviation strategy stands in the index under its lower-cased
    abbreviation, which has at least 4 code units and occurs in the
    input; an entry returned by the fuzzy full-name strategy stands
    under its lower-cased full name, which has at least 20. *)
Theorem fuzzy_length_guards (cs js : list CCFEntry) (normalized : string) (e : CCFEntry) :
  (fuzzyAbbr (new cs js) normalized = Some e ->
   In (Js.toLowerCase (abbr e), e) (JsMap.entries (abbrsMap (new cs js))) /\
   (4 <= Js.length (Js.toLowerCase (abbr e)))%nat /\
   Js.includes normalized (Js.toLowerCase (abbr e)) = true) /\
  (fuzzyFullName (new cs js) normalized = Some e ->
   In (Js.toLowerCase (fullName e), e) (JsMap.entries (fullNamesMap (new cs js))) /\
   (20 <= Js.length (Js.toLowerCase (fullName e)))%nat /\
   Js.includes normalized (Js.toLowerCase (fullName e)) = true).
Proof.
  destruct (new_keys cs js) as [Ka Kf].
  split; intros H; apply firstContained_found in H as (key & Hin & Hlen & Hinc).
  - pose proof (Ka _ _ Hin) as ->. auto.
  - pose proof (Kf _ _ Hin) as ->. auto.
Qed.

Lemma fuzzy_length_guards_witness :
  (4 <= Js.length (Js.toLowerCase (abbr Samples.cvpr)))%nat /\
  (20 <= Js.length (Js.toLowerCase (fullName Samples.vldb)))%nat.
Proof.
  pose proof (fuzzy_length_guards
                [Samples.cvpr; Samples.aaai; Samples.vldb; Samples.ccConf]
                [Samples.pvldb; Samples.vldbj; Samples.ccJournal]) as G.
  split.
  - apply (proj1 (G "workshops of cvpr" Samples.cvpr)). vm_compute; reflexivity.
  - apply (proj2 (G "41st international conference on very large data bases, hawaii"
                    Samples.vldb)).
    vm_compute; reflexivity.
Defined.

(** C8.  For an absent or empty name [getEntry] returns [null] whatever
    the index holds, also an index in which the empty string is a key;
    it is a total function whose only results are an entry or [null],
    and it is [null] when none of the four strategies finds an entry. *)
Theorem getEntry_empty_is_null (svc : t) :
  getEntry svc None = None /\
  getEntry svc (Some EmptyString) = None /\
  (forall e : CCFEntry,
      exactAbbr svc (normalize EmptyString) = Some e -> getEntry svc (Some EmptyString) = None) /\
  (forall name : string,
      firstSuccess (List.map (fun strategy => strategy svc (normalize name)) strategies)
      = None ->
      getEntry svc (Some name) = None).
Proof.
  repeat split; auto.
  intros name H. destruct (Js.truthy name) eqn:Hne.
  - now rewrite (getEntry_chain svc name Hne).
  - unfold getEntry. now rewrite Hne.
Qed.

Lemma getEntry_empty_is_null_witness :
  exactAbbr (new [] [Samples.noAbbr]) (normalize EmptyString) = Some Samples.noAbbr /\
  getEntry (new [] [Samples.noAbbr]) (Some EmptyString) = None /\
  getEntry Samples.table (Some "Annual Summer Workshop") = None.
Proof.
  pose proof (getEntry_empty_is_null (new [] [Samples.noAbbr])) as (_ & _ & Hkey & _).
  pose proof (getEntry_empty_is_null Samples.table) as (_ & _ & _ & Hnone).
  split; [vm_compute; reflexivity|]. split.
  - apply (Hkey Samples.noAbbr). vm_compute; reflexivity.
  - apply Hnone. vm_compute; reflexivity.
Defined.

End Matcher.

(** ** Normalisation *)

Section StringFacts.

Variable P : ascii -> Prop.

Lemma allOf_suffix t s : suffixOf t s -> allOf P s -> allOf P t.
Proof. induction 1; simpl; tauto. Qed.

Lemma allOf_take n : forall s, allOf P s -> allOf P (Js.take n s).
Proof.
  induction n as [|n IH]; intros [|c s]; simpl; auto.
  intros [Hc Hs]. auto.
Qed.

Lemma allOf_append a b : allOf P a -> allOf P b -> allOf P (a ++ b).
Proof. induction a as [|c a IH]; simpl; auto. intros [Hc Ha] Hb. auto. Qed.

Lemma allOf_trimStart s : allOf P s -> allOf P (Js.trimStart s).
Proof.
  induction s as [|c s IH]; simpl; auto.
  intros [Hc Hs]. destruct (Js.isSpace c); simpl; auto.
Qed.

Lemma allOf_trimEnd s : allOf P s -> allOf P (Js.trimEnd s).
Proof.
  induction s as [|c s IH]; simpl; auto.
  intros [Hc Hs]. specialize (IH Hs).
  destruct (Js.trimEnd s); [destruct (Js.isSpace c)|]; simpl in *; auto.
Qed.

End StringFacts.

Lemma suffixOf_trans a b c : suffixOf a b -> suffixOf b c -> suffixOf a c.
Proof. intros Hab Hbc. induction Hbc; auto using suffixOf. Qed.

Section TrimFacts.

Lemma trimEnd_idem s : Js.trimEnd (Js.trimEnd s) = Js.trimEnd s.
Proof.
  induction s as [|c s IH]; simpl; auto.
  destruct (Js.trimEnd s) as [|d t] eqn:E.
  - destruct (Js.isSpace c) eqn:Hc; simpl; auto. now rewrite Hc.
  - change (Js.trimEnd (String c (String d t)))
      with (match Js.trimEnd (String d t) with
            | EmptyString => if Js.isSpace c then EmptyString else String c EmptyString
            | String _ _ as u => String c u
            end).
    now rewrite IH.
Qed.

Lemma trimStart_head s :
  Js.trimStart s = EmptyString \/
  exists c t, Js.trimStart s = String c t /\ Js.isSpace c = false.
Proof.
  induction s as [|c s IH]; simpl; auto.
  destruct (Js.isSpace c) eqn:Hc; eauto.
Qed.

Lemma trimStart_trim s : Js.trimStart (Js.trim s) = Js.trim s.
Proof.
  unfold Js.trim. destruct (trimStart_head s) as [->|(c & t & -> & Hc)]; auto.
  simpl. destruct (Js.trimEnd t); rewrite ?Hc; simpl; now rewrite Hc.
Qed.

Lemma trim_idem s : Js.trim (Js.trim s) = Js.trim s.
Proof.
  unfold Js.trim at 1. rewrite trimStart_trim.
  unfold Js.trim. apply trimEnd_idem.
Qed.

End TrimFacts.

Section CaseFacts.

Lemma lowerChar_idem c : Js.lowerChar (Js.lowerChar c) = Js.lowerChar c.
Proof. destruct c as [[] [] [] [] [] [] [] []]; vm_compute; reflexivity. Qed.

Lemma toLowerCase_lowered s : allOf lowered (Js.toLowerCase s).
Proof.
  induction s as [|c s IH]; simpl; auto.
  split; auto. apply lowerChar_idem.
Qed.

Lemma lowered_fixed s : allOf lowered s -> Js.toLowerCase s = s.
Proof.
  induction s as [|c s IH]; simpl; auto.
  intros [Hc Hs]. now rewrite Hc, IH.
Qed.

End CaseFacts.

Section RegexFacts.

Variable ci : bool.

Lemma lit_reads l k : forall p s cp res,
  lit ci l k p s cp = Some res ->
  exists st', suffixOf (rest st') s /\ k st' = Some res.
Proof.
  induction l as [|a l IH]; intros p s cp res; simpl.
  - intros H. exists (MState p s cp). split; [constructor | assumption].
  - destruct s as [|ch s]; [discriminate|].
    destruct (chrMatch ci a ch); [|discriminate].
    intros H. destruct (IH _ _ _ _ H) as (st' & Hs & Hk).
    exists st'. split; [now constructor | assumption].
Qed.

Lemma rep_reads c k : forall s lo hi p cp res,
  rep ci c lo hi k p cp s = Some res ->
  exists st', suffixOf (rest st') s /\ k st' = Some res.
Proof.
  assert (Hstop : forall lo p s cp res,
             (if (lo =? 0)%nat then k (MState p s cp) else None) = Some res ->
             exists st', suffixOf (rest st') s /\ k st' = Some res).
  { intros lo p s cp res. destruct (lo =? 0)%nat; [|discriminate].
    intros H. exists (MState p s cp). split; [constructor | assumption]. }
  induction s as [|ch s IH]; intros lo hi p cp res; simpl.
  - apply Hstop.
  - destruct (more hi && clsMatch ci c ch).
    + destruct (rep ci c (Nat.pred lo) (decr hi) k (S p) cp s) as [st|] eqn:E.
      * intros [= <-]. destruct (IH _ _ _ _ _ E) as (st' & Hs & Hk).
        exists st'. split; [now constructor | assumption].
      * apply Hstop.
    + apply Hstop.
Qed.

Lemma run_reads r : forall k st res,
  run ci r k st = Some res ->
  exists st', suffixOf (rest st') (rest st) /\ k st' = Some res.
Proof.
  induction r as [| |l|r1 IH1 r2 IH2|r IH|c lo hi|r IH]; intros k st res; simpl.
  - destruct (pos st =? 0)%nat; [|discriminate].
    intros H. exists st. split; [constructor | assumption].
  - destruct (rest st) eqn:E; [|discriminate].
    intros H. exists st. rewrite E. split; [constructor | assumption].
  - apply lit_reads.
  - intros H. destruct (IH1 _ _ _ H) as (st1 & Hs1 & H1).
    destruct (IH2 _ _ _ H1) as (st2 & Hs2 & H2).
    exists st2. split; [eapply suffixOf_trans; eassumption | assumption].
  - destruct (run ci r k st) as [st1|] eqn:E.
    + intros [= <-]. eauto.
    + intros H. exists st. split; [constructor | assumption].
  - apply rep_reads.
  - intros H. destruct (IH _ _ _ H) as (st1 & Hs1 & H1).
    eexists. split; [|exact H1]. exact Hs1.
Qed.

Lemma scan_reads r : forall s i m,
  scan ci r i s = Some m -> suffixOf (rest (final m)) s.
Proof.
  induction s as [|c s IH]; intros i m; simpl.
  - destruct (run ci r Some (MState i EmptyString None)) as [st|] eqn:E; [|discriminate].
    intros [= <-]. simpl.
    destruct (run_reads _ _ _ _ E) as (st' & Hs & [= ->]). exact Hs.
  - destruct (run ci r Some (MState i (String c s) None)) as [st|] eqn:E.
    + intros [= <-]. simpl.
      destruct (run_reads _ _ _ _ E) as (st' & Hs & [= ->]). exact Hs.
    + intros H. constructor. eapply IH; eassumption.
Qed.

(** A replacement only cuts code units out. *)
Lemma replaceEmpty_allOf (P : ascii -> Prop) r s :
  allOf P s -> allOf P (replaceEmpty ci r s).
Proof.
  intros H. unfold replaceEmpty, exec.
  destruct (scan ci r 0 s) as [m|] eqn:E; [|assumption].
  apply allOf_append.
  - now apply allOf_take.
  - eapply allOf_suffix; [eapply scan_reads; eassumption | assumption].
Qed.

Lemma replaceEmpty_unmatched r s : exec ci r s = None -> replaceEmpty ci r s = s.
Proof. unfold replaceEmpty. now intros ->. Qed.

End RegexFacts.

Section Normalize.

Lemma strip_allOf (P : ascii -> Prop) s : allOf P s -> allOf P (strip s).
Proof.
  unfold strip. generalize stripPatterns. intros l. revert s.
  induction l as [|[ci r] l IH]; intros s H; simpl; auto.
  apply IH. now apply replaceEmpty_allOf.
Qed.

Lemma strip_unmatched s : Forall (unmatched s) stripPatterns -> strip s = s.
Proof.
  unfold strip. generalize stripPatterns. intros l.
  induction l as [|[ci r] l IH]; intros H; simpl; auto.
  inversion H as [|? ? H1 H2]; subst. unfold unmatched in H1; simpl in H1.
  rewrite replaceEmpty_unmatched by assumption. auto.
Qed.

Lemma normalize_lowered s : allOf lowered (normalize s).
Proof.
  unfold normalize, Js.trim.
  apply allOf_trimEnd, allOf_trimStart, strip_allOf, toLowerCase_lowered.
Qed.

Lemma normalize_trimmed s : Js.trim (normalize s) = normalize s.
Proof. unfold normalize. apply trim_idem. Qed.

(** C2, as the code has it.  A second normalisation changes nothing when
    none of the seven patterns finds a match in the normalised string. *)
Theorem normalize_idempotent_when_unmatched (s : string) :
  Forall (unmatched (normalize s)) stripPatterns ->
  normalize (normalize s) = normalize s.
Proof.
  intros H. unfold normalize at 1.
  rewrite normalize_trimmed.
  rewrite (lowered_fixed _ (normalize_lowered s)).
  rewrite (strip_unmatched _ H).
  apply normalize_trimmed.
Qed.

Lemma normalize_idempotent_when_unmatched_witness :
  normalize "CVPR 2024" = "cvpr" /\
  normalize (normalize "CVPR 2024") = normalize "CVPR 2024".
Proof.
  split; [vm_compute; reflexivity|].
  apply normalize_idempotent_when_unmatched.
  repeat constructor; vm_compute; reflexivity.
Defined.

(** C2 fails: the group in parentheses is cut after the trailing year was
    looked for, so the year that comes to stand at the end is cut only
    by a second normalisation. *)
Lemma normalize_idempotent_counterexample :
  normalize "ICML 2024 (ICML)" = "icml 2024" /\
  normalize (normalize "ICML 2024 (ICML)") = "icml" /\
  normalize (normalize "ICML 2024 (ICML)") <> normalize "ICML 2024 (ICML)".
Proof.
  repeat split; try (vm_compute; reflexivity).
  vm_compute. discriminate.
Qed.

End Normalize.

(** ** The field extractor *)

Section Extractor.

Import CCFRankService.

Lemma getEntry_truthy svc name e : getEntry svc (Some name) = Some e -> Js.truthy name = true.
Proof. unfold getEntry. destruct (Js.truthy name); [reflexivity | discriminate]. Qed.

Lemma tryField_hit svc item field next calls value e :
  getField item field = Some value ->
  getEntry svc (Some value) = Some e ->
  tryField svc item field next calls = (Some e, (calls ++ [value])%list).
Proof.
  intros Hf He. unfold tryField. rewrite Hf, (getEntry_truthy _ _ _ He), He. reflexivity.
Qed.

Lemma tryField_miss svc item field next calls value :
  getField item field = Some value ->
  getEntry svc (Some value) = None ->
  tryField svc item field next calls = next (calls ++ List.filter Js.truthy [value])%list.
Proof.
  intros Hf He. unfold tryField, List.filter. rewrite Hf.
  destruct (Js.truthy value); [now rewrite He | now rewrite app_nil_r].
Qed.

(** C7.  For a conference paper whose fields can be read, [getEntry] is
    called on the proceedings title, then on the publication title, then
    on the conference name, empty fields being passed over; the first
    result that is not [null] is returned and ends the calls, and a field
    that matches nothing leaves the next field to be tried. *)
Theorem conference_paper_field_order (svc : t) (item : Item) (p q c : string) (e : CCFEntry) :
  itemType item = "conferencePaper" ->
  getField item "proceedingsTitle" = Some p ->
  (getEntry svc (Some p) = Some e ->
   getEntryFromItemTraced svc (Some item) = (Some e, [p])) /\
  (getField item "publicationTitle" = Some q ->
   getEntry svc (Some p) = None ->
   getEntry svc (Some q) = Some e ->
   getEntryFromItemTraced svc (Some item)
   = (Some e, (List.filter Js.truthy [p] ++ [q])%list)) /\
  (getField item "publicationTitle" = Some q ->
   getField item "conferenceName" = Some c ->
   getEntry svc (Some p) = None ->
   getEntry svc (Some q) = None ->
   getEntry svc (Some c) = Some e ->
   getEntryFromItemTraced svc (Some item)
   = (Some e, (List.filter Js.truthy [p; q] ++ [c])%list)).
Proof.
  intros Hty Hp. unfold getEntryFromItemTraced. rewrite Hty. simpl String.eqb. cbv iota.
  repeat split.
  - intros He. now rewrite (tryField_hit _ _ _ _ _ _ _ Hp He).
  - intros Hq Hep Heq.
    rewrite (tryField_miss _ _ _ _ _ _ Hp Hep).
    now rewrite (tryField_hit _ _ _ _ _ _ _ Hq Heq).
  - intros Hq Hc Hep Heq Hec.
    rewrite (tryField_miss _ _ _ _ _ _ Hp Hep).
    rewrite (tryField_miss _ _ _ _ _ _ Hq Heq).
    rewrite (tryField_hit _ _ _ _ _ _ _ Hc Hec).
    f_equal. simpl. destruct (Js.truthy p), (Js.truthy q); reflexivity.
Qed.

Lemma conference_paper_field_order_witness :
  getEntryFromItemTraced Samples.table (Some Samples.paper)
  = (Some Samples.cvpr, ["Annual Summer Workshop"; "CVPR 2024"]).
Proof.
  apply (proj2 (proj2 (conference_paper_field_order
                         Samples.table Samples.paper
                         "Annual Summer Workshop" EmptyString "CVPR 2024" Samples.cvpr
                         eq_refl eq_refl)));
    vm_compute; reflexivity.
Defined.

End Extractor.

(** ** The override store and the rank column *)

Section Store.

Import ManualCCFRankService Session.

Implicit Types (s : gset Z) (x y : Z).

Lemma removed_absent s x : x ∉ s ∖ {[x]}.
Proof. rewrite elem_of_difference, elem_of_singleton. tauto. Qed.

Lemma removed_other s x y : y <> x -> y ∈ s ∖ {[x]} <-> y ∈ s.
Proof. rewrite elem_of_difference, elem_of_singleton. tauto. Qed.

Lemma added_present s x : x ∈ s ∪ {[x]}.
Proof. rewrite elem_of_union, elem_of_singleton. tauto. Qed.

Lemma added_other s x y : y <> x -> y ∈ s ∪ {[x]} <-> y ∈ s.
Proof. rewrite elem_of_union, elem_of_singleton. tauto. Qed.

Lemma exclusive_alt m :
  exclusive m <-> forall itemID : Z, is_Some (cache m !! itemID) -> itemID ∉ ignoreSet m.
Proof.
  unfold exclusive, hasManualRank, isIgnored. split; intros H itemID.
  - intros Hs Hi. apply (H itemID). split; now apply bool_decide_eq_true.
  - intros [Hs Hi]. apply bool_decide_eq_true in Hs, Hi. now apply (H itemID).
Qed.

Lemma new_saveToStorage m : new (saveToStorage m) = m.
Proof.
  destruct m as [c i]. unfold new, loadFromStorage, saveToStorage; simpl.
  f_equal. apply list_to_set_elements_L.
Qed.

Lemma truthy_rankString r : Js.truthy (rankString r) = true.
Proof. destruct r; reflexivity. Qed.

Lemma setRank_exclusive itemID r m : exclusive m -> exclusive (fst (setRank itemID r m)).
Proof.
  rewrite !exclusive_alt. simpl. intros H j Hs.
  destruct (decide (j = itemID)) as [Heq|Hne].
  - subst j. apply removed_absent.
  - rewrite lookup_insert_ne in Hs by congruence.
    rewrite removed_other by assumption. now apply H.
Qed.

Lemma clearRank_exclusive itemID m : exclusive m -> exclusive (fst (clearRank itemID m)).
Proof.
  rewrite !exclusive_alt. simpl. intros H j Hs.
  destruct (decide (j = itemID)) as [Heq|Hne].
  - subst j. apply removed_absent.
  - rewrite lookup_delete_ne in Hs by congruence.
    rewrite removed_other by assumption. now apply H.
Qed.

Lemma ignoreItem_exclusive itemID m : exclusive m -> exclusive (fst (ignoreItem itemID m)).
Proof.
  rewrite !exclusive_alt. simpl. intros H j Hs.
  destruct (decide (j = itemID)) as [Heq|Hne].
  - subst j. rewrite lookup_delete_eq in Hs. destruct Hs as [? [=]].
  - rewrite lookup_delete_ne in Hs by congruence.
    rewrite added_other by assumption. now apply H.
Qed.

Lemma startup_exclusive : exclusive (new freshPrefs).
Proof.
  apply exclusive_alt. unfold new, loadFromStorage; simpl. intros j Hs.
  rewrite lookup_empty in Hs. destruct Hs as [? [=]].
Qed.

(** What a session keeps true: the store is exclusive, and so is the store
    the preferences would be loaded into. *)
Lemma step_exclusive w a :
  exclusive (service w) /\ exclusive (new (prefs w)) ->
  exclusive (service (step w a)) /\ exclusive (new (prefs (step w a))).
Proof.
  intros [Hs Hp]. destruct a as [itemID r|itemID|itemID|]; simpl;
    rewrite ?new_saveToStorage.
  - split; apply (setRank_exclusive itemID r _ Hs).
  - split; apply (clearRank_exclusive itemID _ Hs).
  - split; apply (ignoreItem_exclusive itemID _ Hs).
  - auto.
Qed.

Lemma run_exclusive actions : forall w,
  exclusive (service w) /\ exclusive (new (prefs w)) ->
  exclusive (service (run actions w)) /\ exclusive (new (prefs (run actions w))).
Proof.
  unfold run. induction actions as [|a actions IH]; intros w H; simpl; auto.
  apply IH, step_exclusive, H.
Qed.

(** C5.  Starting from a profile without stored preferences, after any
    sequence of [setRank], [clearRank], [ignoreItem] and reloads of the
    plugin no item has both a stored rank and the ignored status.  From
    any store, [setRank] leaves the item not ignored, [ignoreItem] leaves
    it without a stored rank, and [setRank] followed by [ignoreItem] on the
    same item leaves [getRank] at [null]; each of the three mutators keeps
    an exclusive store exclusive. *)
Theorem manual_rank_excludes_ignored :
  (forall actions : list Action, exclusive (service (run actions startup))) /\
  (forall m itemID r,
      isIgnored (fst (setRank itemID r m)) itemID = false /\
      getRank (fst (setRank itemID r m)) itemID = Some (rankString r)) /\
  (forall m itemID,
      hasManualRank (fst (ignoreItem itemID m)) itemID = false /\
      getRank (fst (ignoreItem itemID m)) itemID = None /\
      isIgnored (fst (ignoreItem itemID m)) itemID = true) /\
  (forall m itemID r,
      getRank (fst (ignoreItem itemID (fst (setRank itemID r m)))) itemID = None) /\
  (forall m itemID r,
      exclusive m ->
      exclusive (fst (setRank itemID r m)) /\
      exclusive (fst (clearRank itemID m)) /\
      exclusive (fst (ignoreItem itemID m))).
Proof.
  split; [|split; [|split; [|split]]].
  - intros actions. apply run_exclusive. simpl. split; apply startup_exclusive.
  - intros m itemID r. unfold isIgnored, getRank; simpl. split.
    + apply bool_decide_eq_false, removed_absent.
    + now rewrite lookup_insert_eq, truthy_rankString.
  - intros m itemID. unfold hasManualRank, isIgnored, getRank; simpl.
    rewrite lookup_delete_eq. split; [|split].
    + apply bool_decide_eq_false. intros [? [=]].
    + reflexivity.
    + apply bool_decide_eq_true, added_present.
  - intros m itemID r. unfold getRank; simpl. now rewrite lookup_delete_eq.
  - intros m itemID r H.
    auto using setRank_exclusive, clearRank_exclusive, ignoreItem_exclusive.
Qed.

Lemma manual_rank_excludes_ignored_witness :
  exclusive (new freshPrefs) /\
  exclusive (fst (ignoreItem 7 (fst (setRank 7 B (new freshPrefs))))).
Proof.
  split; [apply startup_exclusive|].
  destruct manual_rank_excludes_ignored as (_ & _ & _ & _ & Hkeep).
  apply (Hkeep (fst (setRank 7 B (new freshPrefs))) 7%Z A).
  apply (Hkeep (new freshPrefs) 7%Z B).
  apply startup_exclusive.
Defined.

(** C10.  After [clearRank] the item has no stored rank and is not
    ignored; for every other item the stored rank and the ignored status
    are what they were; and the preferences written hold the new store. *)
Theorem clearRank_clears_only_that_item (m : t) (itemID : Z) :
  getRank (fst (clearRank itemID m)) itemID = None /\
  hasManualRank (fst (clearRank itemID m)) itemID = false /\
  isIgnored (fst (clearRank itemID m)) itemID = false /\
  new (snd (clearRank itemID m)) = fst (clearRank itemID m) /\
  (forall other : Z,
      other <> itemID ->
      cache (fst (clearRank itemID m)) !! other = cache m !! other /\
      (other ∈ ignoreSet (fst (clearRank itemID m)) <-> other ∈ ignoreSet m) /\
      getRank (fst (clearRank itemID m)) other = getRank m other /\
      hasManualRank (fst (clearRank itemID m)) other = hasManualRank m other /\
      isIgnored (fst (clearRank itemID m)) other = isIgnored m other).
Proof.
  split; [|split; [|split; [|split]]].
  - unfold getRank; simpl. now rewrite lookup_delete_eq.
  - unfold hasManualRank; simpl. rewrite lookup_delete_eq.
    apply bool_decide_eq_false. intros [? [=]].
  - unfold isIgnored; simpl. apply bool_decide_eq_false, removed_absent.
  - apply new_saveToStorage.
  - intros other Hne. unfold getRank, hasManualRank, isIgnored; simpl.
    rewrite lookup_delete_ne by congruence.
    split; [reflexivity|]. split; [now apply removed_other|].
    split; [reflexivity|]. split; [reflexivity|].
    apply bool_decide_ext. now apply removed_other.
Qed.

Lemma clearRank_clears_only_that_item_witness :
  getRank (fst (clearRank 7 (fst (setRank 8 A (fst (setRank 7 B (new freshPrefs))))))) 8
  = Some "A".
Proof.
  destruct (clearRank_clears_only_that_item
              (fst (setRank 8 A (fst (setRank 7 B (new freshPrefs))))) 7%Z)
    as (_ & _ & _ & _ & Hother).
  destruct (Hother 8%Z) as (_ & _ & Hrank & _); [lia|].
  rewrite Hrank. vm_compute. reflexivity.
Defined.

(** C6.  The data provider of the rank column returns the empty string
    for an ignored item, whatever the matcher finds; for an item that is
    not ignored it returns the manual rank when there is one, whatever the
    matcher finds; otherwise the rank the matcher finds, or the empty
    string when it finds none.  So after [ignoreItem] the column is empty,
    and after [setRank] it shows the rank that was set. *)
Theorem rank_column_precedence (ccf : CCFRankService.t) (m : t) (item : Item) :
  (isIgnored m (id item) = true ->
   CCFRankFactory.rankDataProvider ccf m item = EmptyString) /\
  (isIgnored m (id item) = false ->
   forall manualRank : string,
     getRank m (id item) = Some manualRank ->
     CCFRankFactory.rankDataProvider ccf m item = manualRank) /\
  (isIgnored m (id item) = false ->
   getRank m (id item) = None ->
   CCFRankFactory.rankDataProvider ccf m item
   = match CCFRankService.getRankFromItem ccf (Some item) with
     | Some r => rankString r
     | None => EmptyString
     end) /\
  CCFRankFactory.rankDataProvider ccf (fst (ignoreItem (id item) m)) item = EmptyString /\
  (forall r : Rank,
      CCFRankFactory.rankDataProvider ccf (fst (setRank (id item) r m)) item
      = rankString r).
Proof.
  unfold CCFRankFactory.rankDataProvider.
  split; [|split; [|split; [|split]]].
  - now intros ->.
  - now intros -> manualRank ->.
  - now intros -> ->.
  - replace (isIgnored (fst (ignoreItem (id item) m)) (id item)) with true; [reflexivity|].
    symmetry. unfold isIgnored; simpl. apply bool_decide_eq_true, added_present.
  - intros r.
    replace (isIgnored (fst (setRank (id item) r m)) (id item)) with false.
    + unfold getRank; simpl. now rewrite lookup_insert_eq, truthy_rankString.
    + symmetry. unfold isIgnored; simpl. apply bool_decide_eq_false, removed_absent.
Qed.

Lemma rank_column_precedence_witness :
  CCFRankService.getRankFromItem Samples.table (Some Samples.paper) = Some A /\
  CCFRankFactory.rankDataProvider Samples.table (new freshPrefs) Samples.paper = "A" /\
  CCFRankFactory.rankDataProvider Samples.table
    (fst (setRank 7 B (new freshPrefs))) Samples.paper = "B" /\
  CCFRankFactory.rankDataProvider Samples.table
    (fst (ignoreItem 7 (new freshPrefs))) Samples.paper = EmptyString.
Proof.
  split; [vm_compute; reflexivity|]. split; [|split].
  - destruct (rank_column_precedence Samples.table (new freshPrefs) Samples.paper)
      as (_ & _ & Hauto & _).
    rewrite Hauto; vm_compute; reflexivity.
  - destruct (rank_column_precedence Samples.table (fst (setRank 7 B (new freshPrefs)))
                Samples.paper) as (_ & Hmanual & _).
    apply Hmanual; vm_compute; reflexivity.
  - destruct (rank_column_precedence Samples.table (fst (ignoreItem 7 (new freshPrefs)))
                Samples.paper) as (Hignored & _).
    apply Hignored; vm_compute; reflexivity.
Defined.

End Store.

(** * Further properties *)

(** ** What normalisation keeps of a name *)

Section Pieces.

Lemma append_empty_r s : s ++ EmptyString = s.
Proof. induction s as [|c s IH]; [reflexivity | exact (f_equal (String c) IH)]. Qed.

Lemma append_assoc a b c : (a ++ b) ++ c = a ++ (b ++ c).
Proof. induction a as [|x a IH]; [reflexivity | exact (f_equal (String x) IH)]. Qed.

Lemma length_append a b : String.length (a ++ b) = (String.length a + String.length b)%nat.
Proof. induction a as [|x a IH]; [reflexivity | exact (f_equal S IH)]. Qed.

Lemma take_drop n : forall s, Js.take n s ++ Js.drop n s = s.
Proof.
  induction n as [|n IH]; intros [|c s]; try reflexivity.
  exact (f_equal (String c) (IH s)).
Qed.

Lemma suffixOf_split t s : suffixOf t s -> exists pre, s = pre ++ t.
Proof.
  induction 1 as [|c s _ [pre ->]].
  - now exists EmptyString.
  - now exists (String c pre).
Qed.

Lemma trimStart_suffix s : suffixOf (Js.trimStart s) s.
Proof.
  induction s as [|c s IH]; simpl; [constructor|].
  destruct (Js.isSpace c); [now constructor | constructor].
Qed.

Lemma trimEnd_prefix s : exists post, s = Js.trimEnd s ++ post.
Proof.
  induction s as [|c s [post IH]]; simpl.
  - now exists EmptyString.
  - destruct (Js.trimEnd s) as [|d t] eqn:E.
    + destruct (Js.isSpace c).
      * now exists (String c s).
      * exists s. reflexivity.
    + exists post. exact (f_equal (String c) IH).
Qed.

Lemma toLowerCase_append a b :
  Js.toLowerCase (a ++ b) = Js.toLowerCase a ++ Js.toLowerCase b.
Proof.
  induction a as [|x a IH]; [reflexivity|].
  exact (f_equal (String (Js.lowerChar x)) IH).
Qed.

Lemma infixOf_refl s : infixOf s s.
Proof. exists EmptyString, EmptyString. now rewrite append_empty_r. Qed.

Lemma infixOf_trans a b c : infixOf a b -> infixOf b c -> infixOf a c.
Proof.
  intros (p1 & q1 & ->) (p2 & q2 & ->).
  exists (p2 ++ p1), (q1 ++ q2). now rewrite !append_assoc.
Qed.

Lemma infixOf_suffix t s : suffixOf t s -> infixOf t s.
Proof.
  intros H. destruct (suffixOf_split _ _ H) as [pre ->].
  exists pre, EmptyString. now rewrite append_empty_r.
Qed.

Lemma infixOf_prefix t s post : s = t ++ post -> infixOf t s.
Proof. intros ->. now exists EmptyString, post. Qed.


Lemma infixOf_toLowerCase t s : infixOf t s -> infixOf (Js.toLowerCase t) (Js.toLowerCase s).
Proof.
  intros (pre & post & ->). exists (Js.toLowerCase pre), (Js.toLowerCase post).
  now rewrite !toLowerCase_append.
Qed.

Lemma trim_infix s : infixOf (Js.trim s) s.
Proof.
  unfold Js.trim. apply infixOf_trans with (Js.trimStart s).
  - destruct (trimEnd_prefix (Js.trimStart s)) as [post H].
    eapply infixOf_prefix. exact H.
  - apply infixOf_suffix, trimStart_suffix.
Qed.

Lemma startsWith_split s k : Js.startsWith s k = true <-> exists post, s = k ++ post.
Proof.
  revert s. induction k as [|a k IH]; intros s; simpl.
  - split; [intros _; now exists s | intros _; destruct s; reflexivity].
  - destruct s as [|b s]; simpl.
    + split; [discriminate | intros [post [=]]].
    + rewrite andb_true_iff, Ascii.eqb_eq, IH. split.
      * intros [-> [post ->]]. now exists post.
      * intros [post [= -> ->]]. split; [reflexivity | now exists post].
Qed.

Lemma includes_unfold s k :
  Js.includes s k
  = Js.startsWith s k
    || match s with EmptyString => false | String _ s' => Js.includes s' k end.
Proof. destruct s; reflexivity. Qed.

(** [includes] holds exactly of the contiguous pieces. *)
Lemma includes_infix s k : Js.includes s k = true <-> infixOf k s.
Proof.
  split.
  - induction s as [|c s IH]; rewrite includes_unfold, orb_true_iff.
    + intros [H|[=]]. apply startsWith_split in H as [post H].
      eapply infixOf_prefix. exact H.
    + intros [H|H].
      * apply startsWith_split in H as [post H]. eapply infixOf_prefix. exact H.
      * destruct (IH H) as (pre & post & ->). now exists (String c pre), post.
  - intros (pre & post & ->). induction pre as [|c pre IH].
    + change (Js.includes (k ++ post) k = true).
      assert (H : Js.startsWith (k ++ post) k = true)
        by (apply startsWith_split; now exists post).
      destruct (k ++ post); simpl in *; now rewrite H.
    + change (Js.includes (String c (pre ++ k ++ post)) k = true).
      simpl. rewrite IH. apply orb_true_r.
Qed.

End Pieces.

Section Anchors.

Variable ci : bool.

Lemma scan_bol_later r : forall s i, scan ci (Seq Bol r) (S i) s = None.
Proof. induction s as [|c s IH]; intros i; simpl; auto. Qed.

Lemma exec_bol_start r s m : exec ci (Seq Bol r) s = Some m -> start m = 0%nat.
Proof.
  unfold exec. destruct s as [|c s]; simpl.
  - destruct (run ci r Some _); [now intros [= <-] | discriminate].
  - destruct (run ci r Some _); [now intros [= <-] |].
    now rewrite scan_bol_later.
Qed.

Lemma run_eol r : endsAtEol r = true ->
  forall st res, run ci r Some st = Some res -> rest res = EmptyString.
Proof.
  induction r as [| |l|r1 IH1 r2 IH2|r IH|c lo hi|r IH]; simpl; try discriminate.
  - intros _ st res. destruct (rest st) eqn:E; [|discriminate]. now intros [= <-].
  - intros He st res H.
    destruct (run_reads ci r1 _ _ _ H) as (st1 & _ & H1). eauto.
Qed.

Lemma scan_eol r : endsAtEol r = true ->
  forall s i m, scan ci r i s = Some m -> rest (final m) = EmptyString.
Proof.
  intros He. induction s as [|c s IH]; intros i m; simpl.
  - destruct (run ci r Some _) as [st|] eqn:E; [|discriminate].
    intros [= <-]. simpl. eapply run_eol; eassumption.
  - destruct (run ci r Some _) as [st|] eqn:E.
    + intros [= <-]. simpl. eapply run_eol; eassumption.
    + apply IH.
Qed.

(** A pattern anchored at one end cuts at that end only. *)
Lemma replaceEmpty_anchored r s :
  startsAtBol r || endsAtEol r = true -> infixOf (replaceEmpty ci r s) s.
Proof.
  intros H. unfold replaceEmpty. destruct (exec ci r s) as [m|] eqn:E;
    [|apply infixOf_refl].
  apply orb_true_iff in H as [H|H].
  - destruct r as [| | |r1 r2| | |]; try discriminate.
    destruct r1; try discriminate.
    rewrite (exec_bol_start _ _ _ E). simpl.
    apply infixOf_suffix. unfold exec in E. eapply scan_reads; eassumption.
  - unfold exec in E. rewrite (scan_eol _ H _ _ _ E), append_empty_r.
    eapply infixOf_prefix. symmetry. apply take_drop.
Qed.

End Anchors.

Section NormalizeShape.

Lemma stripPatterns_anchored :
  Forall (fun p => startsAtBol (snd p) || endsAtEol (snd p) = true) stripPatterns.
Proof. repeat constructor. Qed.

Lemma strip_infix s : infixOf (strip s) s.
Proof.
  unfold strip. generalize stripPatterns_anchored. generalize stripPatterns.
  intros l. revert s. induction l as [|[ci r] l IH]; intros s H; simpl.
  - apply infixOf_refl.
  - inversion H as [|? ? H1 H2]; subst. simpl in H1.
    eapply infixOf_trans; [apply IH; assumption|].
    now apply replaceEmpty_anchored.
Qed.

Lemma normalize_infix s : infixOf (normalize s) (Js.toLowerCase s).
Proof.
  unfold normalize.
  eapply infixOf_trans; [apply trim_infix|].
  eapply infixOf_trans; [apply strip_infix|].
  apply infixOf_toLowerCase, trim_infix.
Qed.


(** X2.  A normalised name has no white space at either end and no
    capital letter: [trim] and [toLowerCase] leave it as it is. *)
Theorem normalize_is_trimmed_lowercase (s : string) :
  Js.trim (normalize s) = normalize s /\
  Js.toLowerCase (normalize s) = normalize s.
Proof.
  split; [apply normalize_trimmed | apply lowered_fixed, normalize_lowered].
Qed.

End NormalizeShape.

(** ** Names that [getEntry] does not tell apart *)

Section Insensitive.

Import CCFRankService.

Lemma isSpace_lowerChar c : Js.isSpace (Js.lowerChar c) = Js.isSpace c.
Proof. destruct c as [[] [] [] [] [] [] [] []]; vm_compute; reflexivity. Qed.

Lemma trimStart_lower s : Js.trimStart (Js.toLowerCase s) = Js.toLowerCase (Js.trimStart s).
Proof.
  induction s as [|c s IH]; simpl; [reflexivity|].
  rewrite isSpace_lowerChar. destruct (Js.isSpace c); [assumption | reflexivity].
Qed.

Lemma trimEnd_lower s : Js.trimEnd (Js.toLowerCase s) = Js.toLowerCase (Js.trimEnd s).
Proof.
  induction s as [|c s IH]; simpl; [reflexivity|].
  rewrite IH, isSpace_lowerChar.
  destruct (Js.trimEnd s); simpl; [destruct (Js.isSpace c)|]; reflexivity.
Qed.

Lemma trim_lower s : Js.trim (Js.toLowerCase s) = Js.toLowerCase (Js.trim s).
Proof. unfold Js.trim. now rewrite trimStart_lower, trimEnd_lower. Qed.

Lemma truthy_lower s : Js.truthy (Js.toLowerCase s) = Js.truthy s.
Proof. destruct s; reflexivity. Qed.

Lemma getEntry_congruence svc a b :
  Js.truthy a = Js.truthy b -> normalize a = normalize b ->
  getEntry svc (Some a) = getEntry svc (Some b).
Proof. intros Ht Hn. unfold getEntry. now rewrite Ht, Hn. Qed.

(** X3.  [getEntry] is insensitive to case: two names with the same
    lower-cased form get the same answer from every index. *)
Theorem getEntry_case_insensitive (svc : t) (a b : string) :
  Js.toLowerCase a = Js.toLowerCase b ->
  getEntry svc (Some a) = getEntry svc (Some b).
Proof.
  intros H. apply getEntry_congruence.
  - now rewrite <- (truthy_lower a), H, truthy_lower.
  - unfold normalize. now rewrite <- !trim_lower, H.
Qed.

Lemma getEntry_case_insensitive_witness :
  getEntry Samples.table (Some "cVpR 2024") = getEntry Samples.table (Some "CVPR 2024").
Proof.
  apply getEntry_case_insensitive. reflexivity.
Defined.

(** X4.  White space around a name does not change the answer, as long as
    the name is more than white space. *)
Theorem getEntry_ignores_outer_space (svc : t) (name : string) :
  Js.truthy (Js.trim name) = true ->
  getEntry svc (Some (Js.trim name)) = getEntry svc (Some name).
Proof.
  intros H. apply getEntry_congruence.
  - rewrite H. destruct name; [discriminate H | reflexivity].
  - unfold normalize. now rewrite trim_idem.
Qed.

Lemma getEntry_ignores_outer_space_witness :
  getEntry Samples.table (Some "VLDB") = getEntry Samples.table (Some "  VLDB  ").
Proof.
  apply (getEntry_ignores_outer_space Samples.table "  VLDB  "). reflexivity.
Defined.

Lemma firstContained_empty n entries :
  (1 <= n)%nat -> firstContained n EmptyString entries = None.
Proof.
  intros Hn. induction entries as [|[key value] entries IH]; simpl; [reflexivity|].
  destruct key as [|c key]; simpl.
  - destruct n; [lia | simpl; exact IH].
  - rewrite andb_false_r. exact IH.
Qed.

(** X5.  A name that is not empty but normalises to the empty string
    (white space only, a bare year, a group in parentheses) is looked up
    under the empty key: the answer is the entry whose abbreviation, or
    else whose full name, is empty, and [null] when the table has none. *)
Theorem getEntry_of_empty_normal_form (svc : t) (name : string) :
  Js.truthy name = true ->
  normalize name = EmptyString ->
  getEntry svc (Some name)
  = firstSuccess [exactAbbr svc EmptyString; exactFullName svc EmptyString].
Proof.
  intros Hne Hn. rewrite (getEntry_chain svc name Hne), Hn. simpl.
  unfold fuzzyAbbr, fuzzyFullName, JsMap.entries.
  rewrite !firstContained_empty by lia.
  destruct (exactAbbr svc EmptyString); [reflexivity|].
  destruct (exactFullName svc EmptyString); reflexivity.
Qed.

Lemma getEntry_of_empty_normal_form_witness :
  getEntry (new [Samples.cvpr] [Samples.noAbbr]) (Some "2024") = Some Samples.noAbbr /\
  getEntry Samples.table (Some "(2024)") = None.
Proof.
  split.
  - rewrite (getEntry_of_empty_normal_form (new [Samples.cvpr] [Samples.noAbbr]) "2024");
      vm_compute; reflexivity.
  - rewrite (getEntry_of_empty_normal_form Samples.table "(2024)");
      vm_compute; reflexivity.
Defined.

End Insensitive.

(** ** The index in terms of the table *)

Section IndexShape.

Import CCFRankService.

Implicit Types (maps : JsMap.t CCFEntry * JsMap.t CCFEntry) (l : list CCFEntry).

Lemma find_snoc {X : Type} (q : X -> bool) (xs : list X) (x : X) :
  find q (xs ++ [x])%list
  = match find q xs with Some y => Some y | None => if q x then Some x else None end.
Proof.
  induction xs as [|y xs IH]; simpl; [reflexivity|].
  destruct (q y); [reflexivity | exact IH].
Qed.

Lemma find_none_iff {X : Type} (q : X -> bool) (xs : list X) :
  find q xs = None <-> Forall (fun x => q x = false) xs.
Proof.
  induction xs as [|y xs IH]; simpl.
  - split; [constructor | reflexivity].
  - destruct (q y) eqn:E.
    + split; [discriminate | intros H; inversion H; congruence].
    + rewrite IH. split; [now constructor | intros H; now inversion H].
Qed.

Lemma get_set_key {V : Type} (k k0 : string) (v : V) (m : JsMap.t V) :
  JsMap.get k (JsMap.set k0 v m) = if String.eqb k k0 then Some v else JsMap.get k m.
Proof.
  destruct (String.eqb k k0) eqn:E.
  - apply String.eqb_eq in E. subst. apply get_set_same.
  - apply String.eqb_neq in E. apply get_set_other. congruence.
Qed.

Lemma index_get_abbr l : forall maps k,
  JsMap.get k (fst (fold_left indexEntry l maps))
  = match lastKeyed abbr k l with Some e => Some e | None => JsMap.get k (fst maps) end.
Proof.
  unfold lastKeyed. induction l as [|e l IH]; intros maps k; simpl; [reflexivity|].
  rewrite IH, find_snoc. simpl. rewrite get_set_key.
  destruct (find _ (rev l)); [reflexivity|].
  destruct (String.eqb k (Js.toLowerCase (abbr e))); reflexivity.
Qed.

Lemma index_get_full l : forall maps k,
  JsMap.get k (snd (fold_left indexEntry l maps))
  = match lastKeyed fullName k l with Some e => Some e | None => JsMap.get k (snd maps) end.
Proof.
  unfold lastKeyed. induction l as [|e l IH]; intros maps k; simpl; [reflexivity|].
  rewrite IH, find_snoc. simpl. rewrite get_set_key.
  destruct (find _ (rev l)); [reflexivity|].
  destruct (String.eqb k (Js.toLowerCase (fullName e))); reflexivity.
Qed.

Lemma exactAbbr_lastKeyed cs js k :
  exactAbbr (new cs js) k = lastKeyed abbr k (allEntries cs js).
Proof.
  unfold exactAbbr, new; simpl. rewrite index_get_abbr. simpl.
  destruct (lastKeyed abbr k (allEntries cs js)); reflexivity.
Qed.

Lemma exactFullName_lastKeyed cs js k :
  exactFullName (new cs js) k = lastKeyed fullName k (allEntries cs js).
Proof.
  unfold exactFullName, new; simpl. rewrite index_get_full. simpl.
  destruct (lastKeyed fullName k (allEntries cs js)); reflexivity.
Qed.

(** X6.  A key of the index is bound to the last entry of the table
    (conferences, then journals) whose lower-cased abbreviation, or full
    name, is that key; a key no entry has is not in the index. *)
Theorem exact_lookup_is_last_entry (cs js : list CCFEntry) (k : string) :
  exactAbbr (new cs js) k = lastKeyed abbr k (allEntries cs js) /\
  exactFullName (new cs js) k = lastKeyed fullName k (allEntries cs js) /\
  (Forall (fun e => Js.toLowerCase (abbr e) <> k) (allEntries cs js) ->
   exactAbbr (new cs js) k = None) /\
  (Forall (fun e => Js.toLowerCase (fullName e) <> k) (allEntries cs js) ->
   exactFullName (new cs js) k = None).
Proof.
  split; [apply exactAbbr_lastKeyed|]. split; [apply exactFullName_lastKeyed|].
  split; intros H.
  - rewrite exactAbbr_lastKeyed. apply find_none_iff, Forall_forall.
    intros e He. apply in_rev in He. rewrite Forall_forall in H.
    apply String.eqb_neq. intros ->. now apply (H e).
  - rewrite exactFullName_lastKeyed. apply find_none_iff, Forall_forall.
    intros e He. apply in_rev in He. rewrite Forall_forall in H.
    apply String.eqb_neq. intros ->. now apply (H e).
Qed.

Lemma exact_lookup_is_last_entry_witness :
  exactAbbr Samples.table "sigmod" = None.
Proof.
  apply (proj1 (proj2 (proj2 (exact_lookup_is_last_entry
           [Samples.cvpr; Samples.aaai; Samples.vldb; Samples.ccConf]
           [Samples.pvldb; Samples.vldbj; Samples.ccJournal] "sigmod")))).
  repeat constructor; vm_compute; discriminate.
Defined.

(** The keys of a map in iteration order. *)
Lemma keys_set {V : Type} (k : string) (v : V) (m : JsMap.t V) :
  List.map fst (JsMap.set k v m)
  = if existsb (String.eqb k) (List.map fst m)
    then List.map fst m else (List.map fst m ++ [k])%list.
Proof.
  induction m as [|[k' v'] m IH]; simpl; [reflexivity|].
  destruct (String.eqb k k') eqn:E; simpl; [reflexivity|].
  rewrite IH. destruct (existsb (String.eqb k) (List.map fst m)); reflexivity.
Qed.

Lemma find_keys_set {V : Type} (q : string -> bool) (k : string) (v : V) (m : JsMap.t V) :
  find q (List.map fst (JsMap.set k v m))
  = match find q (List.map fst m) with
    | Some k' => Some k'
    | None => if q k then Some k else None
    end.
Proof.
  rewrite keys_set. destruct (existsb (String.eqb k) (List.map fst m)) eqn:E.
  - destruct (find q (List.map fst m)) eqn:F; [reflexivity|].
    apply existsb_exists in E as (k' & Hin & Hk). apply String.eqb_eq in Hk. subst k'.
    apply find_none_iff in F. rewrite Forall_forall in F. now rewrite (F k Hin).
  - apply find_snoc.
Qed.

Lemma find_index_keys_abbr (q : string -> bool) l : forall maps,
  find q (List.map fst (fst (fold_left indexEntry l maps)))
  = match find q (List.map fst (fst maps)) with
    | Some k => Some k
    | None => find q (List.map (fun e => Js.toLowerCase (abbr e)) l)
    end.
Proof.
  induction l as [|e l IH]; intros maps; simpl.
  - destruct (find q _); reflexivity.
  - rewrite IH. simpl. rewrite find_keys_set.
    destruct (find q (List.map fst (fst maps))); [reflexivity|].
    destruct (q (Js.toLowerCase (abbr e))); reflexivity.
Qed.

Lemma find_index_keys_full (q : string -> bool) l : forall maps,
  find q (List.map fst (snd (fold_left indexEntry l maps)))
  = match find q (List.map fst (snd maps)) with
    | Some k => Some k
    | None => find q (List.map (fun e => Js.toLowerCase (fullName e)) l)
    end.
Proof.
  induction l as [|e l IH]; intros maps; simpl.
  - destruct (find q _); reflexivity.
  - rewrite IH. simpl. rewrite find_keys_set.
    destruct (find q (List.map fst (snd maps))); [reflexivity|].
    destruct (q (Js.toLowerCase (fullName e))); reflexivity.
Qed.

(** The loop returns the binding of the first key that passes the test. *)
Lemma firstContained_first_key n normalized (m : JsMap.t CCFEntry) :
  firstContained n normalized m
  = match find (qualifies n normalized) (List.map fst m) with
    | Some k => JsMap.get k m
    | None => None
    end.
Proof.
  induction m as [|[key value] m IH]; simpl; [reflexivity|].
  fold (qualifies n normalized key).
  destruct (qualifies n normalized key) eqn:Q.
  - now rewrite String.eqb_refl.
  - rewrite IH. destruct (find _ (List.map fst m)) as [k|] eqn:F; [|reflexivity].
    apply find_some in F as [_ Qk].
    destruct (String.eqb k key) eqn:E; [|reflexivity].
    apply String.eqb_eq in E. congruence.
Qed.

Lemma fuzzyAbbr_table cs js normalized :
  fuzzyAbbr (new cs js) normalized
  = match find (qualifies 4 normalized)
               (List.map (fun e => Js.toLowerCase (abbr e)) (allEntries cs js)) with
    | Some k => lastKeyed abbr k (allEntries cs js)
    | None => None
    end.
Proof.
  unfold fuzzyAbbr, JsMap.entries. rewrite firstContained_first_key.
  unfold new at 1; simpl. rewrite find_index_keys_abbr. simpl.
  destruct (find _ _) as [k|]; [apply (exactAbbr_lastKeyed cs js k) | reflexivity].
Qed.

Lemma fuzzyFullName_table cs js normalized :
  fuzzyFullName (new cs js) normalized
  = match find (qualifies 20 normalized)
               (List.map (fun e => Js.toLowerCase (fullName e)) (allEntries cs js)) with
    | Some k => lastKeyed fullName k (allEntries cs js)
    | None => None
    end.
Proof.
  unfold fuzzyFullName, JsMap.entries. rewrite firstContained_first_key.
  unfold new at 1; simpl. rewrite find_index_keys_full. simpl.
  destruct (find _ _) as [k|]; [apply (exactFullName_lastKeyed cs js k) | reflexivity].
Qed.

(** X7.  Which fuzzy match wins: the key is the first one, in table order,
    that is long enough (4 for abbreviations, 20 for full names) and occurs
    in the normalised name; the entry returned is the last entry of the
    table that has this key. *)
Theorem fuzzy_match_follows_table_order (cs js : list CCFEntry) (normalized : string) :
  fuzzyAbbr (new cs js) normalized
  = match find (qualifies 4 normalized)
               (List.map (fun e => Js.toLowerCase (abbr e)) (allEntries cs js)) with
    | Some k => lastKeyed abbr k (allEntries cs js)
    | None => None
    end /\
  fuzzyFullName (new cs js) normalized
  = match find (qualifies 20 normalized)
               (List.map (fun e => Js.toLowerCase (fullName e)) (allEntries cs js)) with
    | Some k => lastKeyed fullName k (allEntries cs js)
    | None => None
    end.
Proof. split; [apply fuzzyAbbr_table | apply fuzzyFullName_table]. Qed.

End IndexShape.

(** ** What [getEntry] can and cannot answer *)

Section Answers.

Import CCFRankService.

Implicit Types (table : list CCFEntry) (field : CCFEntry -> string).

Lemma lastKeyed_some field k table e :
  lastKeyed field k table = Some e -> In e table /\ Js.toLowerCase (field e) = k.
Proof.
  unfold lastKeyed. intros H. apply find_some in H as [Hin Hk].
  apply in_rev in Hin. apply String.eqb_eq in Hk. auto.
Qed.

Lemma lastKeyed_none field k table :
  lastKeyed field k table = None <->
  Forall (fun e => String.eqb k (Js.toLowerCase (field e)) = false) table.
Proof.
  unfold lastKeyed. rewrite find_none_iff, !Forall_forall.
  split; intros H e He; apply H; [now apply in_rev in He | now apply in_rev].
Qed.

Lemma find_map_none {X Y : Type} (q : Y -> bool) (f : X -> Y) (xs : list X) :
  find q (List.map f xs) = None <-> Forall (fun x => q (f x) = false) xs.
Proof. rewrite find_none_iff, Forall_map. reflexivity. Qed.

Lemma find_map_some {X Y : Type} (q : Y -> bool) (f : X -> Y) (xs : list X) (y : Y) :
  find q (List.map f xs) = Some y -> q y = true /\ exists x, In x xs /\ f x = y.
Proof.
  intros H. apply find_some in H as [Hin Hq]. split; [assumption|].
  apply in_map_iff in Hin as (x & Hx & Hin). eauto.
Qed.

Lemma fuzzy_none field n normalized table :
  match find (qualifies n normalized)
             (List.map (fun e => Js.toLowerCase (field e)) table) with
  | Some k => lastKeyed field k table
  | None => None
  end = None <->
  Forall (fun e => qualifies n normalized (Js.toLowerCase (field e)) = false) table.
Proof.
  destruct (find _ _) as [k|] eqn:F.
  - split.
    + intros H. apply find_map_some in F as (_ & e & He & Hk).
      rewrite lastKeyed_none, Forall_forall in H. specialize (H e He).
      rewrite Hk, String.eqb_refl in H. discriminate.
    + intros H. apply find_map_some in F as (Hq & e & He & Hk).
      rewrite Forall_forall in H. specialize (H e He). congruence.
  - split; [intros _; now apply find_map_none | reflexivity].
Qed.

Lemma fuzzy_some field n normalized table e :
  match find (qualifies n normalized)
             (List.map (fun e => Js.toLowerCase (field e)) table) with
  | Some k => lastKeyed field k table
  | None => None
  end = Some e ->
  In e table /\ qualifies n normalized (Js.toLowerCase (field e)) = true.
Proof.
  destruct (find _ _) as [k|] eqn:F; [|discriminate].
  intros H. apply lastKeyed_some in H as [Hin Hk].
  apply find_map_some in F as [Hq _]. subst k. auto.
Qed.

(** Each answer of [getEntry] comes from the table and matches the
    normalised name under one of the four strategies. *)
Lemma getEntry_answer cs js name e :
  getEntry (new cs js) (Some name) = Some e ->
  In e (allEntries cs js) /\
  (Js.toLowerCase (abbr e) = normalize name \/
   Js.toLowerCase (fullName e) = normalize name \/
   qualifies 4 (normalize name) (Js.toLowerCase (abbr e)) = true \/
   qualifies 20 (normalize name) (Js.toLowerCase (fullName e)) = true).
Proof.
  intros H. pose proof (getEntry_truthy _ _ _ H) as Hne.
  rewrite (getEntry_chain _ _ Hne) in H. simpl in H.
  rewrite exactAbbr_lastKeyed, exactFullName_lastKeyed,
    fuzzyAbbr_table, fuzzyFullName_table in H.
  destruct (lastKeyed abbr _ _) eqn:E1.
  { injection H as ->. apply lastKeyed_some in E1 as []. auto. }
  destruct (lastKeyed fullName _ _) eqn:E2.
  { injection H as ->. apply lastKeyed_some in E2 as []. auto. }
  match type of H with
  | match ?x with _ => _ end = _ => destruct x eqn:E3
  end.
  { injection H as ->. apply fuzzy_some in E3 as []. auto. }
  match type of H with
  | match ?x with _ => _ end = _ => destruct x eqn:E4
  end; [|discriminate].
  injection H as ->. apply fuzzy_some in E4 as []. auto 6.
Qed.

(** X8.  [getEntry] answers only with entries of the table. *)
Theorem getEntry_answers_from_table (cs js : list CCFEntry) (name : option string)
        (e : CCFEntry) :
  getEntry (new cs js) name = Some e -> In e (allEntries cs js).
Proof.
  destruct name as [name|]; [|discriminate].
  intros H. now apply getEntry_answer in H as [Hin _].
Qed.

Lemma getEntry_answers_from_table_witness :
  In Samples.vldb
     (allEntries [Samples.cvpr; Samples.aaai; Samples.vldb; Samples.ccConf]
                 [Samples.pvldb; Samples.vldbj; Samples.ccJournal]).
Proof.
  apply (getEntry_answers_from_table _ _ (Some "Proceedings of the VLDB Endowment")).
  vm_compute. reflexivity.
Defined.

(** X9.  The entry [getEntry] answers with is named in the input: its
    lower-cased abbreviation or its lower-cased full name is a contiguous
    piece of the lower-cased name. *)
Theorem getEntry_answer_occurs_in_name (cs js : list CCFEntry) (name : string)
        (e : CCFEntry) :
  getEntry (new cs js) (Some name) = Some e ->
  (exists pre post, Js.toLowerCase name = pre ++ Js.toLowerCase (abbr e) ++ post) \/
  (exists pre post, Js.toLowerCase name = pre ++ Js.toLowerCase (fullName e) ++ post).
Proof.
  intros H. apply getEntry_answer in H as [_ H].
  pose proof (normalize_infix name) as Hn.
  assert (Hq : forall n key, qualifies n (normalize name) key = true ->
                             infixOf key (Js.toLowerCase name)).
  { intros n key Q. apply andb_true_iff in Q as [_ Q].
    apply includes_infix in Q. eapply infixOf_trans; eassumption. }
  destruct H as [H|[H|[H|H]]].
  - left. now rewrite H.
  - right. now rewrite H.
  - left. exact (Hq _ _ H).
  - right. exact (Hq _ _ H).
Qed.

Lemma getEntry_answer_occurs_in_name_witness :
  (exists pre post, Js.toLowerCase "Workshops of CVPR 2024"
                    = pre ++ Js.toLowerCase (abbr Samples.cvpr) ++ post) \/
  (exists pre post, Js.toLowerCase "Workshops of CVPR 2024"
                    = pre ++ Js.toLowerCase (fullName Samples.cvpr) ++ post).
Proof.
  apply (getEntry_answer_occurs_in_name
           [Samples.cvpr; Samples.aaai; Samples.vldb; Samples.ccConf]
           [Samples.pvldb; Samples.vldbj; Samples.ccJournal]).
  vm_compute. reflexivity.
Defined.

(** X10.  [getEntry] answers [null] exactly when the name is empty or no
    entry of the table matches the normalised name: none has it as
    lower-cased abbreviation or full name, none has a lower-cased
    abbreviation of 4 code units or more that occurs in it, and none a
    lower-cased full name of 20 or more that occurs in it. *)
Theorem getEntry_null_iff_nothing_matches (cs js : list CCFEntry) (name : string) :
  getEntry (new cs js) (Some name) = None <->
  Js.truthy name = false \/
  Forall (fun e => matchesEntry (normalize name) e = false) (allEntries cs js).
Proof.
  destruct (Js.truthy name) eqn:Hne.
  2:{ unfold getEntry. rewrite Hne. simpl. tauto. }
  rewrite (getEntry_chain _ _ Hne). simpl.
  rewrite exactAbbr_lastKeyed, exactFullName_lastKeyed,
    fuzzyAbbr_table, fuzzyFullName_table.
  set (n := normalize name). set (table := allEntries cs js).
  assert (Hall :
    Forall (fun e => matchesEntry n e = false) table <->
    Forall (fun e => String.eqb n (Js.toLowerCase (abbr e)) = false) table /\
    Forall (fun e => String.eqb n (Js.toLowerCase (fullName e)) = false) table /\
    Forall (fun e => qualifies 4 n (Js.toLowerCase (abbr e)) = false) table /\
    Forall (fun e => qualifies 20 n (Js.toLowerCase (fullName e)) = false) table).
  { rewrite !Forall_forall. unfold matchesEntry. split.
    - intros H. repeat split; intros e He; specialize (H e He);
        rewrite !orb_false_iff in H; tauto.
    - intros (H1 & H2 & H3 & H4) e He.
      now rewrite (H1 e He), (H2 e He), (H3 e He), (H4 e He). }
  rewrite Hall, <- !lastKeyed_none, <- !fuzzy_none.
  destruct (lastKeyed abbr n table).
  { split; [discriminate | intros [H|[H _]]; discriminate]. }
  destruct (lastKeyed fullName n table).
  { split; [discriminate | intros [H|(_ & H & _)]; discriminate]. }
  match goal with
  | |- context [match ?x with Some k => lastKeyed abbr k table | None => None end] =>
      destruct (match x with Some k => lastKeyed abbr k table | None => None end)
  end.
  { split; [discriminate | intros [H|(_ & _ & H & _)]; discriminate]. }
  match goal with
  | |- context [match ?x with Some k => lastKeyed fullName k table | None => None end] =>
      destruct (match x with Some k => lastKeyed fullName k table | None => None end)
  end.
  { split; [discriminate | intros [H|(_ & _ & _ & H)]; discriminate]. }
  tauto.
Qed.

Lemma getEntry_null_iff_nothing_matches_witness :
  getEntry Samples.table (Some "Annual Summer Workshop") = None.
Proof.
  apply (proj2 (getEntry_null_iff_nothing_matches
                  [Samples.cvpr; Samples.aaai; Samples.vldb; Samples.ccConf]
                  [Samples.pvldb; Samples.vldbj; Samples.ccJournal]
                  "Annual Summer Workshop")).
  right. repeat constructor.
Defined.

End Answers.

(** ** The extractor on every item type *)

Section ExtractorShape.

Import CCFRankService.

Lemma tryField_result svc item field next calls value :
  getField item field = Some value ->
  fst (tryField svc item field next calls)
  = match getEntry svc (Some value) with
    | Some e => Some e
    | None => fst (next (calls ++ List.filter Js.truthy [value])%list)
    end.
Proof.
  intros Hf. destruct (getEntry svc (Some value)) as [e|] eqn:E.
  - now rewrite (tryField_hit _ _ _ _ _ _ _ Hf E).
  - now rewrite (tryField_miss _ _ _ _ _ _ Hf E).
Qed.

Lemma tryTitle_result svc item calls title :
  getField item "title" = Some title ->
  fst (tryTitle svc item calls) = titleAttempt svc title.
Proof.
  intros Hf. unfold tryTitle, titleAttempt, titleName. rewrite Hf.
  destruct title as [|c title]; [reflexivity|].
  unfold Js.truthy. destruct (matchGroup false reTitleToken (String c title));
    reflexivity.
Qed.

Lemma generic_result svc item calls pub title :
  getField item "publicationTitle" = Some pub ->
  getField item "title" = Some title ->
  fst (tryField svc item "publicationTitle" (tryTitle svc item) calls)
  = firstSuccess [getEntry svc (Some pub); titleAttempt svc title].
Proof.
  intros Hp Ht. rewrite (tryField_result _ _ _ _ _ _ Hp).
  rewrite (tryTitle_result _ _ _ _ Ht). cbn [firstSuccess].
  destruct (getEntry svc (Some pub)); [reflexivity|].
  destruct (titleAttempt svc title); reflexivity.
Qed.

Lemma journal_result svc item calls pub title :
  getField item "publicationTitle" = Some pub ->
  getField item "title" = Some title ->
  fst ((if String.eqb (itemType item) "journalArticle"
        then tryField svc item "publicationTitle"
               (tryField svc item "publicationTitle" (tryTitle svc item))
        else tryField svc item "publicationTitle" (tryTitle svc item)) calls)
  = firstSuccess [getEntry svc (Some pub); titleAttempt svc title].
Proof.
  intros Hp Ht. destruct (String.eqb (itemType item) "journalArticle").
  - rewrite (tryField_result _ _ _ _ _ _ Hp).
    rewrite (generic_result _ _ _ _ _ Hp Ht). cbn [firstSuccess].
    destruct (getEntry svc (Some pub)); reflexivity.
  - apply (generic_result _ _ _ _ _ Hp Ht).
Qed.

(** X11.  For an item that is not a conference paper, a journal article
    or any other type alike, the answer is the match of the publication
    title, or else the match of the token in parentheses in the title. *)
Theorem other_types_publication_then_title (svc : t) (item : Item) (pub title : string) :
  itemType item <> "conferencePaper" ->
  getField item "publicationTitle" = Some pub ->
  getField item "title" = Some title ->
  getEntryFromItem svc (Some item)
  = firstSuccess [getEntry svc (Some pub);
                  match titleName title with
                  | Some name => getEntry svc (Some name)
                  | None => None
                  end].
Proof.
  intros Hty Hp Ht. unfold getEntryFromItem, getEntryFromItemTraced.
  apply String.eqb_neq in Hty. rewrite Hty.
  apply (journal_result _ _ _ _ _ Hp Ht).
Qed.

Lemma other_types_publication_then_title_witness :
  getEntryFromItem Samples.table
    (Some {| id := 9%Z; itemType := "preprint";
             getField := fun field =>
               if String.eqb field "title" then Some "Deep Things (AAAI'21)"
               else Some EmptyString |})
  = Some Samples.aaai.
Proof.
  rewrite (other_types_publication_then_title _ _ EmptyString "Deep Things (AAAI'21)");
    [vm_compute; reflexivity | simpl; discriminate | reflexivity | reflexivity].
Defined.

(** X12.  For a conference paper the answer is the first match among the
    proceedings title, the publication title, the conference name and the
    token in parentheses in the title: the title is a last resort for
    conference papers too. *)
Theorem conference_paper_full_chain (svc : t) (item : Item) (p q c title : string) :
  itemType item = "conferencePaper" ->
  getField item "proceedingsTitle" = Some p ->
  getField item "publicationTitle" = Some q ->
  getField item "conferenceName" = Some c ->
  getField item "title" = Some title ->
  getEntryFromItem svc (Some item)
  = firstSuccess [getEntry svc (Some p); getEntry svc (Some q); getEntry svc (Some c);
                  match titleName title with
                  | Some name => getEntry svc (Some name)
                  | None => None
                  end].
Proof.
  intros Hty Hp Hq Hc Ht. unfold getEntryFromItem, getEntryFromItemTraced.
  rewrite Hty. simpl String.eqb. cbv iota.
  rewrite (tryField_result _ _ _ _ _ _ Hp).
  rewrite (tryField_result _ _ _ _ _ _ Hq).
  rewrite (tryField_result _ _ _ _ _ _ Hc).
  rewrite (generic_result _ _ _ _ _ Hq Ht). cbn [firstSuccess].
  destruct (getEntry svc (Some p)); [reflexivity|].
  destruct (getEntry svc (Some q)); [reflexivity|].
  destruct (getEntry svc (Some c)); reflexivity.
Qed.

Lemma conference_paper_full_chain_witness :
  getEntryFromItem Samples.table
    (Some {| id := 9%Z; itemType := "conferencePaper";
             getField := fun field =>
               if String.eqb field "title" then Some "Deep Things (AAAI'21)"
               else if String.eqb field "proceedingsTitle" then Some "Annual Summer Workshop"
               else Some EmptyString |})
  = Some Samples.aaai.
Proof.
  rewrite (conference_paper_full_chain _ _ "Annual Summer Workshop" EmptyString EmptyString
             "Deep Things (AAAI'21)");
    [vm_compute; reflexivity | reflexivity ..].
Defined.

(** X13.  An item that is absent gets [null]; and when reading the first
    field throws (the proceedings title of a conference paper, the
    publication title of any other item) the answer is [null] and
    [getEntry] is never called, whatever the other fields hold. *)
Theorem unreadable_first_field_gives_null (svc : t) :
  getEntryFromItemTraced svc None = (None, []) /\
  (forall item : Item,
      itemType item = "conferencePaper" ->
      getField item "proceedingsTitle" = None ->
      getEntryFromItemTraced svc (Some item) = (None, [])) /\
  (forall item : Item,
      itemType item <> "conferencePaper" ->
      getField item "publicationTitle" = None ->
      getEntryFromItemTraced svc (Some item) = (None, [])).
Proof.
  split; [reflexivity|]. split; intros item Hty Hf; unfold getEntryFromItemTraced.
  - rewrite Hty. simpl String.eqb. cbv iota. unfold tryField at 1. now rewrite Hf.
  - apply String.eqb_neq in Hty. rewrite Hty.
    destruct (String.eqb (itemType item) "journalArticle");
      unfold tryField at 1; now rewrite Hf.
Qed.

Lemma unreadable_first_field_gives_null_witness :
  getEntryFromItemTraced Samples.table
    (Some {| id := 9%Z; itemType := "conferencePaper";
             getField := fun field =>
               if String.eqb field "proceedingsTitle" then None else Some "CVPR" |})
  = (None, []).
Proof.
  apply (proj1 (proj2 (unreadable_first_field_gives_null Samples.table))); reflexivity.
Defined.

End ExtractorShape.

(** ** The token in parentheses in a title *)

Section TitleToken.

Import CCFRankService.

Lemma append_cons c a b : String c a ++ b = String c (a ++ b).
Proof. reflexivity. Qed.

Lemma scan_cons ci r i c s :
  scan ci r i (String c s)
  = match run ci r Some (MState i (String c s) None) with
    | Some st => Some (Found i st)
    | None => scan ci r (S i) s
    end.
Proof. reflexivity. Qed.

(** The search passes over code units at which the pattern cannot start. *)
Lemma scan_skip ci r (P : ascii -> Prop) :
  (forall i c s, P c -> run ci r Some (MState i (String c s) None) = None) ->
  forall pre i s, allOf P pre ->
    scan ci r i (pre ++ s) = scan ci r (i + String.length pre) s.
Proof.
  intros Hr. induction pre as [|c pre IH]; intros i s Hp.
  - change (EmptyString ++ s) with s. simpl. now rewrite Nat.add_0_r.
  - destruct Hp as [Hc Hp]. rewrite append_cons, scan_cons, (Hr _ _ _ Hc), (IH _ _ Hp).
    simpl. f_equal. lia.
Qed.

Lemma rep_stop c hi k p cp s :
  stopsAt c s -> rep false c 0 hi k p cp s = k (MState p s cp).
Proof.
  destruct s as [|ch s]; [reflexivity|].
  intros H. cbn [stopsAt] in H. cbn [rep]. now rewrite H, andb_false_r.
Qed.

Lemma rep_exhausted c k p cp s : rep false c 0 (Some 0%nat) k p cp s = k (MState p s cp).
Proof. destruct s; reflexivity. Qed.

(** Greedy repetition reads a whole run of the class when the rest of the
    pattern matches behind it. *)
Lemma rep_takes_all c k : forall word s lo p cp res,
  allOf (fun ch => clsMatch false c ch = true) word ->
  stopsAt c s ->
  (lo <= String.length word)%nat ->
  k (MState (p + String.length word) s cp) = Some res ->
  rep false c lo None k p cp (word ++ s) = Some res.
Proof.
  induction word as [|ch word IH]; intros s lo p cp res Ht Hs Hlo Hk.
  - change (EmptyString ++ s) with s. simpl in Hlo, Hk. rewrite Nat.add_0_r in Hk.
    assert (lo = 0)%nat as -> by lia. now rewrite rep_stop.
  - destruct Ht as [Hc Ht]. rewrite append_cons. cbn [rep more decr]. rewrite Hc.
    cbn [andb].
    rewrite (IH s (Nat.pred lo) (S p) cp res); auto.
    + simpl in Hlo. lia.
    + simpl in Hk. now replace (S p + String.length word)%nat
        with (p + S (String.length word))%nat by lia.
Qed.

Lemma drop_append pre : forall s, Js.drop (String.length pre) (pre ++ s) = s.
Proof. induction pre as [|c pre IH]; intros s; [now destruct s | apply IH]. Qed.

Lemma take_append word : forall s, Js.take (String.length word) (word ++ s) = word.
Proof.
  induction word as [|c word IH]; intros s; [now destruct s|].
  rewrite append_cons. simpl. now rewrite IH.
Qed.

Lemma capital_matches c :
  isCapital c = true -> clsMatch false (Range "A"%char "Z"%char) c = true.
Proof. destruct c as [[] [] [] [] [] [] [] []]; vm_compute; auto. Qed.

Lemma capital_no_quote c :
  isCapital c = true -> clsMatch false (OneOf ["'"%char; "'"%char]) c = false.
Proof. destruct c as [[] [] [] [] [] [] [] []]; vm_compute; auto. Qed.

Lemma digit_matches c : Js.isDigit c = true -> clsMatch false Digit c = true.
Proof. destruct c as [[] [] [] [] [] [] [] []]; vm_compute; auto. Qed.

Lemma digit_is_dot c : Js.isDigit c = true -> clsMatch false Dot c = true.
Proof. destruct c as [[] [] [] [] [] [] [] []]; vm_compute; auto. Qed.

Lemma digit_no_capital c :
  Js.isDigit c = true -> clsMatch false (Range "A"%char "Z"%char) c = false.
Proof. destruct c as [[] [] [] [] [] [] [] []]; vm_compute; auto. Qed.

Lemma digit_no_quote c :
  Js.isDigit c = true -> clsMatch false (OneOf ["'"%char; "'"%char]) c = false.
Proof. destruct c as [[] [] [] [] [] [] [] []]; vm_compute; auto. Qed.

Lemma allOf_impl (P Q : ascii -> Prop) s :
  (forall c, P c -> Q c) -> allOf P s -> allOf Q s.
Proof. intros H. induction s as [|c s IH]; simpl; [auto | intros []; auto]. Qed.

Lemma title_token_cannot_start i c s :
  c <> "("%char -> run false reTitleToken Some (MState i (String c s) None) = None.
Proof.
  intros Hc. apply Ascii.eqb_neq in Hc. rewrite Ascii.eqb_sym in Hc.
  unfold reTitleToken. cbn [Regex.seq run lit pos rest cap chrMatch]. now rewrite Hc.
Qed.

Lemma quote_tail_cannot_start i c s :
  clsMatch false (OneOf ["'"%char; "'"%char]) c = false ->
  run false reQuoteTail Some (MState i (String c s) None) = None.
Proof.
  intros Hc. unfold reQuoteTail. cbn [Regex.seq run rep pos rest cap more].
  now rewrite Hc.
Qed.

(** X14.  A title without an opening parenthesis gives the title fallback
    nothing to try: no name is passed to [getEntry]. *)
Theorem title_without_parenthesis_has_no_token (title : string) :
  allOf (fun c => c <> "("%char) title -> titleName title = None.
Proof.
  intros H. unfold titleName, matchGroup, exec.
  rewrite <- (append_empty_r title).
  rewrite (scan_skip false reTitleToken _ title_token_cannot_start _ _ _ H).
  reflexivity.
Qed.

Lemma title_without_parenthesis_has_no_token_witness :
  titleName "Attention Is All You Need" = None.
Proof.
  apply title_without_parenthesis_has_no_token. simpl.
  repeat split; discriminate.
Defined.


Lemma digits_then_close i0 digits post p cp :
  allOf (fun c => Js.isDigit c = true) digits ->
  rep false Digit 0 None
      (fun st' => run false (Lit ")") Some
                      (MState (pos st') (rest st') (Some (i0, pos st'))))
      p cp (digits ++ String ")"%char post)
  = Some (MState (S (p + String.length digits)) post
                 (Some (i0, (p + String.length digits)%nat))).
Proof.
  intros Hd. apply rep_takes_all.
  - eapply allOf_impl; [|exact Hd]. apply digit_matches.
  - reflexivity.
  - lia.
  - reflexivity.
Qed.

Lemma title_run i tok (quoted : bool) digits post :
  tok <> EmptyString ->
  allOf (fun c => isCapital c = true) tok ->
  allOf (fun c => Js.isDigit c = true) digits ->
  let X := tok ++ (if quoted then "'" else EmptyString) ++ digits in
  run false reTitleToken Some (MState i (String "("%char (X ++ String ")"%char post)) None)
  = Some (MState (S (S i + String.length X)) post (Some (S i, (S i + String.length X)%nat))).
Proof.
  intros Hne Htok Hdig X.
  unfold reTitleToken. cbn [Regex.seq run lit pos rest cap chrMatch].
  rewrite Ascii.eqb_refl. unfold X. rewrite !append_assoc, !length_append.
  apply rep_takes_all.
  - eapply allOf_impl; [|exact Htok]. apply capital_matches.
  - destruct quoted; [reflexivity|].
    change (EmptyString ++ digits ++ String ")"%char post)
      with (digits ++ String ")"%char post).
    destruct digits as [|d digits]; [reflexivity|].
    destruct Hdig as [Hd _]. exact (digit_no_capital d Hd).
  - destruct tok; [congruence | simpl; lia].
  - cbn [pos rest cap]. destruct quoted.
    + change ("'" ++ digits ++ String ")"%char post)
        with (String "'"%char (digits ++ String ")"%char post)).
      cbn [rep more decr Nat.pred].
      replace (clsMatch false (OneOf ["'"%char; "'"%char]) "'"%char) with true
        by (vm_compute; reflexivity).
      cbn [andb]. rewrite rep_exhausted. cbn [pos rest cap].
      rewrite (digits_then_close (S i) digits post _ None Hdig).
      simpl String.length. do 3 f_equal; [|f_equal]; lia.
    + change (EmptyString ++ digits ++ String ")"%char post)
        with (digits ++ String ")"%char post).
      rewrite rep_stop.
      * cbn [pos rest cap].
        rewrite (digits_then_close (S i) digits post _ None Hdig).
        simpl String.length. do 3 f_equal; [|f_equal]; lia.
      * destruct digits as [|d digits]; [reflexivity|].
        destruct Hdig as [Hd _]. exact (digit_no_quote d Hd).
Qed.

Lemma drop_append_cons pre c z : Js.drop (S (String.length pre)) (pre ++ String c z) = z.
Proof.
  revert z. induction pre as [|a pre IH]; intros z; [now destruct z | apply IH].
Qed.

Lemma quote_tail_run n digits :
  allOf (fun c => Js.isDigit c = true) digits ->
  run false reQuoteTail Some (MState n (String "'"%char digits) None)
  = Some (MState (S n + String.length digits) EmptyString None).
Proof.
  intros Hd. unfold reQuoteTail. cbn [Regex.seq run rep pos rest cap more decr Nat.pred].
  replace (clsMatch false (OneOf ["'"%char; "'"%char]) "'"%char) with true
    by (vm_compute; reflexivity).
  cbn [andb]. rewrite rep_exhausted. cbn [pos rest cap].
  rewrite <- (append_empty_r digits) at 1.
  rewrite (rep_takes_all Dot Some digits EmptyString 0 (S n) None
             (MState (S n + String.length digits) EmptyString None)); auto.
  - eapply allOf_impl; [|exact Hd]. apply digit_is_dot.
  - exact I.
  - lia.
Qed.

(** X15.  When the first opening parenthesis of a title is followed by a
    run of capital letters, then optionally a quote, then digits, then the
    closing parenthesis, the title fallback passes to [getEntry] the
    letters alone if there is a quote, and the letters with the digits if
    there is none. *)
Theorem title_token_is_extracted (pre tok digits post : string) (quoted : bool) :
  allOf (fun c => c <> "("%char) pre ->
  tok <> EmptyString ->
  allOf (fun c => isCapital c = true) tok ->
  allOf (fun c => Js.isDigit c = true) digits ->
  titleName (pre ++ "(" ++ tok ++ (if quoted then "'" else EmptyString) ++ digits
                 ++ ")" ++ post)
  = Some (if quoted then tok else tok ++ digits).
Proof.
  intros Hpre Hne Htok Hdig.
  set (X := tok ++ (if quoted then "'" else EmptyString) ++ digits).
  change (pre ++ "(" ++ tok ++ (if quoted then "'" else EmptyString) ++ digits
              ++ ")" ++ post)
    with (pre ++ String "("%char (tok ++ (if quoted then "'" else EmptyString) ++ digits
              ++ String ")"%char post)).
  replace (tok ++ (if quoted then "'" else EmptyString) ++ digits ++ String ")"%char post)
    with (X ++ String ")"%char post) by (unfold X; now rewrite !append_assoc).
  unfold titleName, matchGroup, exec.
  rewrite (scan_skip false reTitleToken _ title_token_cannot_start _ _ _ Hpre).
  rewrite scan_cons. simpl Nat.add.
  pose proof (title_run (String.length pre) tok quoted digits post Hne Htok Hdig) as Hrun.
  cbv zeta in Hrun. fold X in Hrun. rewrite Hrun. clear Hrun.
  cbn [final cap start option_map].
  unfold Js.slice.
  replace (S (String.length pre) + String.length X - S (String.length pre))%nat
    with (String.length X) by lia.
  rewrite drop_append_cons, take_append. cbn [option_map]. f_equal.
  assert (Hq : allOf (fun c => clsMatch false (OneOf ["'"%char; "'"%char]) c = false) tok)
    by (eapply allOf_impl; [|exact Htok]; apply capital_no_quote).
  unfold X, replaceEmpty, exec. destruct quoted.
  - change (tok ++ "'" ++ digits) with (tok ++ String "'"%char digits).
    rewrite (scan_skip false reQuoteTail _ quote_tail_cannot_start _ _ _ Hq).
    rewrite scan_cons, (quote_tail_run _ _ Hdig). cbn [start final rest].
    simpl Nat.add. now rewrite take_append, append_empty_r.
  - change (tok ++ EmptyString ++ digits) with (tok ++ digits).
    rewrite <- (append_empty_r (tok ++ digits)) at 1.
    rewrite (scan_skip false reQuoteTail
               (fun c => clsMatch false (OneOf ["'"%char; "'"%char]) c = false)
               quote_tail_cannot_start).
    + reflexivity.
    + apply allOf_append; [exact Hq|].
      eapply allOf_impl; [|exact Hdig]. apply digit_no_quote.
Qed.

Lemma title_token_is_extracted_witness :
  titleName "Some Paper Title (AAAI'21)" = Some "AAAI" /\
  titleName "Some Paper Title (CVPR2024) extended" = Some "CVPR2024".
Proof.
  split.
  - apply (title_token_is_extracted "Some Paper Title " "AAAI" "21" EmptyString true);
      simpl; repeat split; discriminate.
  - apply (title_token_is_extracted "Some Paper Title " "CVPR" "2024" " extended" false);
      simpl; repeat split; discriminate.
Defined.
End TitleToken.

(** ** How the mutators of the store compose *)

Section StoreAlgebra.

Import ManualCCFRankService Session.

Implicit Types (m : ManualCCFRankService.t) (w : World) (i j : Z) (s : gset Z).

Lemma store_eq m1 m2 :
  cache m1 = cache m2 -> ignoreSet m1 = ignoreSet m2 -> m1 = m2.
Proof. destruct m1, m2; simpl; intros -> ->; reflexivity. Qed.

Lemma setRank_saved i r m : snd (setRank i r m) = saveToStorage (fst (setRank i r m)).
Proof. reflexivity. Qed.

Lemma world_eq w1 w2 :
  service w1 = service w2 -> prefs w1 = prefs w2 -> w1 = w2.
Proof. destruct w1, w2; simpl; intros -> ->; reflexivity. Qed.

(** After a mutator the preferences hold the store. *)
Lemma step_saved w a i :
  target a = Some i -> prefs (step w a) = saveToStorage (service (step w a)).
Proof. destruct a; try discriminate; reflexivity. Qed.

Lemma removed_twice s i : (s ∖ {[i]}) ∖ {[i]} = s ∖ {[i]}.
Proof.
  apply set_eq. intros x. rewrite !elem_of_difference, elem_of_singleton. tauto.
Qed.



Lemma removed_added s i : (s ∪ {[i]}) ∖ {[i]} = s ∖ {[i]}.
Proof.
  apply set_eq. intros x.
  rewrite !elem_of_difference, elem_of_union, elem_of_singleton. tauto.
Qed.

Lemma removed_absent_id s i : i ∉ s -> s ∖ {[i]} = s.
Proof.
  intros H. apply set_eq. intros x. rewrite elem_of_difference, elem_of_singleton.
  split; [tauto | intros Hx; split; [assumption | congruence]].
Qed.

Lemma removed_commute s i j : (s ∖ {[i]}) ∖ {[j]} = (s ∖ {[j]}) ∖ {[i]}.
Proof.
  apply set_eq. intros x. rewrite !elem_of_difference, !elem_of_singleton. tauto.
Qed.

Lemma added_commute s i j : (s ∪ {[i]}) ∪ {[j]} = (s ∪ {[j]}) ∪ {[i]}.
Proof.
  apply set_eq. intros x. rewrite !elem_of_union, !elem_of_singleton. tauto.
Qed.

Lemma added_removed_commute s i j : i <> j -> (s ∪ {[i]}) ∖ {[j]} = (s ∖ {[j]}) ∪ {[i]}.
Proof.
  intros H. apply set_eq. intros x.
  rewrite !elem_of_difference, !elem_of_union, elem_of_difference, !elem_of_singleton.
  split; [tauto | intros [[] | ->]; [tauto | split; [tauto | congruence]]].
Qed.







(** X18.  [clearRank] undoes [setRank] and [ignoreItem] on an item that had
    neither a stored rank nor the ignored status: the store is what it was
    before. *)
Theorem clearRank_undoes (m : ManualCCFRankService.t) (i : Z) (r : Rank) :
  cache m !! i = None -> i ∉ ignoreSet m ->
  fst (clearRank i (fst (setRank i r m))) = m /\
  fst (clearRank i (fst (ignoreItem i m))) = m.
Proof.
  intros Hc Hi. split; apply store_eq; simpl.
  - apply map_eq. intros k. rewrite lookup_delete, lookup_insert.
    repeat case_decide; subst; rewrite ?Hc; congruence.
  - rewrite removed_twice. now apply removed_absent_id.
  - apply map_eq. intros k. rewrite !lookup_delete.
    repeat case_decide; subst; rewrite ?Hc; congruence.
  - rewrite removed_added. now apply removed_absent_id.
Qed.

Lemma clearRank_undoes_witness :
  fst (clearRank 7 (fst (setRank 7 B (new freshPrefs)))) = new freshPrefs.
Proof.
  apply (proj1 (clearRank_undoes (new freshPrefs) 7%Z B (lookup_empty _)
                  (not_elem_of_empty _))).
Defined.

(** X19.  A command on one item changes nothing for the others: their
    stored rank and their ignored status are what they were. *)
Theorem command_leaves_other_items (w : World) (a : Action) (i j : Z) :
  target a = Some i -> j <> i ->
  getRank (service (step w a)) j = getRank (service w) j /\
  hasManualRank (service (step w a)) j = hasManualRank (service w) j /\
  isIgnored (service (step w a)) j = isIgnored (service w) j.
Proof.
  intros Ha Hne. unfold getRank, hasManualRank, isIgnored.
  destruct a; simpl in *; try discriminate; injection Ha as ->;
    rewrite ?lookup_insert_ne, ?lookup_delete_ne by congruence;
    (split; [reflexivity|]); (split; [reflexivity|]);
    apply bool_decide_ext;
    first [now apply removed_other | now apply added_other].
Qed.

Lemma command_leaves_other_items_witness :
  getRank (service (step (step startup (SetRank 8 A)) (IgnoreItem 7))) 8 = Some "A".
Proof.
  destruct (command_leaves_other_items (step startup (SetRank 8 A)) (IgnoreItem 7) 7%Z 8%Z)
    as [Hrank _]; [reflexivity | lia |].
  rewrite Hrank. vm_compute. reflexivity.
Defined.

Lemma reload_consistent w :
  new (prefs w) = service w -> step w Reload = w.
Proof. intros H. apply world_eq; simpl; [exact H | reflexivity]. Qed.

Lemma step_consistent w a :
  new (prefs w) = service w -> new (prefs (step w a)) = service (step w a).
Proof.
  intros H. destruct a; simpl; rewrite ?new_saveToStorage; auto.
Qed.

Lemma run_without_reloads actions : forall w,
  new (prefs w) = service w ->
  run actions w = run (List.filter isCommand actions) w.
Proof.
  unfold run. induction actions as [|a actions IH]; intros w H; [reflexivity|].
  cbn [fold_left List.filter].
  destruct a; cbn [isCommand target fold_left];
    try (apply IH; apply (step_consistent w _ H)).
  rewrite (reload_consistent w H). now apply IH.
Qed.

(** X20.  Reloading the plugin is invisible: a session that starts from a
    profile without stored preferences ends in the same store, with the
    same preferences, as the session without its reloads; in particular a
    reload right after a command restores exactly the store it left. *)
Theorem reloads_change_nothing (actions : list Action) :
  run actions startup
  = run (List.filter isCommand actions) startup /\
  (forall (w : World) (a : Action) (i : Z),
      target a = Some i -> step (step w a) Reload = step w a).
Proof.
  split.
  - apply run_without_reloads. reflexivity.
  - intros w a i Ha. apply reload_consistent.
    rewrite (step_saved _ _ _ Ha). apply new_saveToStorage.
Qed.

Lemma reloads_change_nothing_witness :
  step (step startup (IgnoreItem 7)) Reload = step startup (IgnoreItem 7).
Proof.
  apply (proj2 (reloads_change_nothing []) startup (IgnoreItem 7) 7%Z). reflexivity.
Defined.

(** X21.  The constructor takes the preferences as they are: when an item
    stands both in the stored ranks and in the stored ignore list, the
    store that is loaded holds it in both. *)
Theorem loaded_store_is_not_repaired (data : gmap Z string) (ignoredIds : list Z)
        (i : Z) (value : string) :
  data !! i = Some value -> i ∈ ignoredIds ->
  hasManualRank (new {| manualRanks := Some data; ignoreItems := Some ignoredIds |}) i = true /\
  isIgnored (new {| manualRanks := Some data; ignoreItems := Some ignoredIds |}) i = true /\
  ~ exclusive (new {| manualRanks := Some data; ignoreItems := Some ignoredIds |}).
Proof.
  intros Hd Hi.
  assert (H1 : hasManualRank
                 (new {| manualRanks := Some data; ignoreItems := Some ignoredIds |}) i = true).
  { unfold hasManualRank, new, loadFromStorage; simpl.
    apply bool_decide_eq_true. rewrite Hd. eauto. }
  assert (H2 : isIgnored
                 (new {| manualRanks := Some data; ignoreItems := Some ignoredIds |}) i = true).
  { unfold isIgnored, new, loadFromStorage; simpl.
    apply bool_decide_eq_true. now apply elem_of_list_to_set. }
  split; [exact H1|]. split; [exact H2|].
  intros Hex. apply (Hex i). auto.
Qed.

Lemma loaded_store_is_not_repaired_witness :
  ~ exclusive (new {| manualRanks := Some {[ 7%Z := "A" ]}; ignoreItems := Some [7%Z] |}).
Proof.
  apply (loaded_store_is_not_repaired {[ 7%Z := "A" ]} [7%Z] 7%Z "A").
  - apply lookup_singleton_eq.
  - apply list_elem_of_In. simpl. auto.
Defined.

End StoreAlgebra.

(** ** The menu commands and the two columns *)

Section MenuFacts.

Import ManualCCFRankService Session Menu CCFRankFactory.

Implicit Types (m : ManualCCFRankService.t) (w : World) (items : list Item).

Lemma forEach_keeps (Q : ManualCCFRankService.t -> Prop) f :
  (forall i m, Q m -> Q (fst (f i m))) ->
  forall items w, Q (service w) -> Q (service (forEach f items w)).
Proof.
  intros Hf. unfold forEach. induction items as [|it items IH]; intros w H; simpl.
  - exact H.
  - apply IH. simpl. now apply Hf.
Qed.

Lemma forEach_reaches (Q : Z -> ManualCCFRankService.t -> Prop) f :
  (forall i m, Q i (fst (f i m))) ->
  (forall i j m, Q j m -> Q j (fst (f i m))) ->
  forall items w item, In item items -> Q (id item) (service (forEach f items w)).
Proof.
  intros Hpost Hkeep. induction items as [|it items IH]; intros w item []; subst.
  - apply (forEach_keeps (Q (id item)) f (fun i m => Hkeep i (id item) m) items).
    apply Hpost.
  - now apply IH.
Qed.

Lemma providers_sameFor ccf m1 m2 item :
  sameFor (id item) m1 m2 ->
  rankDataProvider ccf m1 item = rankDataProvider ccf m2 item /\
  categoryDataProvider ccf m1 item = categoryDataProvider ccf m2 item.
Proof.
  intros [Hc Hi]. unfold rankDataProvider, categoryDataProvider, isIgnored, getRank.
  rewrite Hc, (bool_decide_ext _ _ Hi). auto.
Qed.

Lemma mutators_frame i j m r :
  j <> i ->
  sameFor j (fst (setRank i r m)) m /\
  sameFor j (fst (clearRank i m)) m /\
  sameFor j (fst (ignoreItem i m)) m.
Proof.
  intros Hne. unfold sameFor; simpl.
  rewrite lookup_insert_ne, lookup_delete_ne by congruence.
  repeat split; try tauto;
    first [now apply removed_other | now apply added_other
          | intros H; now apply removed_other | intros H; now apply added_other].
Qed.

Lemma forEach_frame f j :
  (forall i m, j <> i -> sameFor j (fst (f i m)) m) ->
  forall items w,
    Forall (fun it => id it <> j) items ->
    sameFor j (service (forEach f items w)) (service w).
Proof.
  intros Hf. unfold forEach.
  induction items as [|it items IH]; intros w H; simpl.
  - split; tauto.
  - inversion H as [|? ? Hit Hrest]; subst.
    destruct (IH (commit (f (id it) (service w))) Hrest) as [Hc Hi].
    destruct (Hf (id it) (service w)) as [Hc' Hi']; [congruence|].
    simpl in Hc, Hi. split; [congruence | tauto].
Qed.

Lemma guarded_selected f items w item :
  In item items -> guarded f (Some items) w = forEach f items w.
Proof. destruct items; [intros [] | reflexivity]. Qed.

Lemma category_shown ccf m item :
  isIgnored m (id item) = false ->
  categoryDataProvider ccf m item
  = match CCFRankService.getCategoryFromItem ccf (Some item) with
    | Some c => c
    | None => EmptyString
    end.
Proof.
  intros H. unfold categoryDataProvider. rewrite H.
  destruct (CCFRankService.getCategoryFromItem ccf (Some item)) as [[|c s]|]; reflexivity.
Qed.

(** X22.  After "set CCF rank" on a selection, every selected item shows
    the chosen rank in the rank column, whatever the matcher finds and
    whether or not the item was ignored before, and the category the
    matcher finds in the category column. *)
Theorem setManualRank_shows_rank (ccf : CCFRankService.t) (rank : Rank)
        (items : list Item) (w : World) (item : Item) :
  In item items ->
  rankDataProvider ccf (service (setManualRank rank (Some items) w)) item
  = rankString rank /\
  categoryDataProvider ccf (service (setManualRank rank (Some items) w)) item
  = match CCFRankService.getCategoryFromItem ccf (Some item) with
    | Some c => c
    | None => EmptyString
    end.
Proof.
  intros Hin. unfold setManualRank. rewrite (guarded_selected _ _ _ _ Hin).
  pose proof (forEach_reaches
                (fun j m => cache m !! j = Some (rankString rank) /\ j ∉ ignoreSet m)
                (fun itemID => setRank itemID rank)) as H.
  destruct (H) with (items := items) (w := w) (item := item) as [Hc Hi]; [| |assumption|].
  - intros i m. simpl. rewrite lookup_insert_eq. split; [reflexivity | apply removed_absent].
  - intros i j m [Hc Hi]. destruct (decide (j = i)) as [->|Hne]; simpl.
    + rewrite lookup_insert_eq. split; [reflexivity | apply removed_absent].
    + rewrite lookup_insert_ne by congruence. split; [assumption|].
      now rewrite removed_other.
  - assert (Hig : isIgnored (service (forEach (fun itemID => setRank itemID rank) items w))
                            (id item) = false)
      by (now apply bool_decide_eq_false).
    split; [|now apply category_shown].
    unfold rankDataProvider, getRank. now rewrite Hig, Hc, truthy_rankString.
Qed.

Lemma setManualRank_shows_rank_witness :
  rankDataProvider Samples.table
    (service (setManualRank C (Some [Samples.paper]) (step startup (IgnoreItem 7))))
    Samples.paper = "C".
Proof.
  apply (setManualRank_shows_rank Samples.table C [Samples.paper]
           (step startup (IgnoreItem 7)) Samples.paper).
  simpl. auto.
Defined.

(** X23.  After "ignore" on a selection, both columns are empty for every
    selected item, whatever rank was set by hand and whatever the matcher
    finds. *)
Theorem ignoreItems_empties_columns (ccf : CCFRankService.t)
        (items : list Item) (w : World) (item : Item) :
  In item items ->
  rankDataProvider ccf (service (ignoreItems (Some items) w)) item = EmptyString /\
  categoryDataProvider ccf (service (ignoreItems (Some items) w)) item = EmptyString.
Proof.
  intros Hin. unfold ignoreItems. rewrite (guarded_selected _ _ _ _ Hin).
  pose proof (forEach_reaches (fun j m => j ∈ ignoreSet m) ignoreItem) as H.
  assert (Hi : id item ∈ ignoreSet (service (forEach ignoreItem items w))).
  { apply H; [| |assumption].
    - intros i m. simpl. apply added_present.
    - intros i j m Hj. simpl. apply elem_of_union. now left. }
  assert (Hig : isIgnored (service (forEach ignoreItem items w)) (id item) = true)
    by (now apply bool_decide_eq_true).
  unfold rankDataProvider, categoryDataProvider. now rewrite Hig.
Qed.

Lemma ignoreItems_empties_columns_witness :
  rankDataProvider Samples.table
    (service (ignoreItems (Some [Samples.paper]) (step startup (SetRank 7 B))))
    Samples.paper = EmptyString.
Proof.
  apply (ignoreItems_empties_columns Samples.table [Samples.paper]
           (step startup (SetRank 7 B)) Samples.paper).
  simpl. auto.
Defined.

(** X24.  After "clear manual setting" on a selection, every selected
    item shows what the matcher finds: its rank, or nothing, in the rank
    column, and its category, or nothing, in the category column. *)
Theorem clearManualRank_shows_matcher (ccf : CCFRankService.t)
        (items : list Item) (w : World) (item : Item) :
  In item items ->
  rankDataProvider ccf (service (clearManualRank (Some items) w)) item
  = match CCFRankService.getRankFromItem ccf (Some item) with
    | Some r => rankString r
    | None => EmptyString
    end /\
  categoryDataProvider ccf (service (clearManualRank (Some items) w)) item
  = match CCFRankService.getCategoryFromItem ccf (Some item) with
    | Some c => c
    | None => EmptyString
    end.
Proof.
  intros Hin. unfold clearManualRank. rewrite (guarded_selected _ _ _ _ Hin).
  pose proof (forEach_reaches
                (fun j m => cache m !! j = None /\ j ∉ ignoreSet m) clearRank) as H.
  destruct (H) with (items := items) (w := w) (item := item) as [Hc Hi]; [| |assumption|].
  - intros i m. simpl. rewrite lookup_delete_eq. split; [reflexivity | apply removed_absent].
  - intros i j m [Hc Hi]. destruct (decide (j = i)) as [->|Hne]; simpl.
    + rewrite lookup_delete_eq. split; [reflexivity | apply removed_absent].
    + rewrite lookup_delete_ne by congruence. split; [assumption|].
      now rewrite removed_other.
  - assert (Hig : isIgnored (service (forEach clearRank items w)) (id item) = false)
      by (now apply bool_decide_eq_false).
    split; [|now apply category_shown].
    unfold rankDataProvider, getRank. now rewrite Hig, Hc.
Qed.

Lemma clearManualRank_shows_matcher_witness :
  rankDataProvider Samples.table
    (service (clearManualRank (Some [Samples.paper]) (step startup (SetRank 7 B))))
    Samples.paper = "A".
Proof.
  destruct (clearManualRank_shows_matcher Samples.table [Samples.paper]
              (step startup (SetRank 7 B)) Samples.paper) as [Hrank _];
    [simpl; auto|].
  rewrite Hrank. vm_compute. reflexivity.
Defined.

(** X25.  A menu command without a selection, or with an empty one, does
    nothing, not even a write of the preferences; and with a selection it
    changes neither column of an item that is not selected. *)
Theorem menu_commands_touch_only_selection (rank : Rank) (w : World) :
  (forall selected : option (list Item),
      selected = None \/ selected = Some [] ->
      setManualRank rank selected w = w /\
      clearManualRank selected w = w /\
      ignoreItems selected w = w) /\
  (forall (ccf : CCFRankService.t) (items : list Item) (item : Item),
      Forall (fun it => id it <> id item) items ->
      Forall (fun w' =>
                rankDataProvider ccf (service w') item
                = rankDataProvider ccf (service w) item /\
                categoryDataProvider ccf (service w') item
                = categoryDataProvider ccf (service w) item)
             [setManualRank rank (Some items) w;
              clearManualRank (Some items) w;
              ignoreItems (Some items) w]).
Proof.
  split.
  - intros selected [-> | ->]; repeat split.
  - intros ccf items item Hsel.
    assert (Hg : forall f,
               (forall i m, id item <> i -> sameFor (id item) (fst (f i m)) m) ->
               sameFor (id item) (service (guarded f (Some items) w)) (service w)).
    { intros f Hf. unfold guarded. destruct (List.length items =? 0)%nat.
      - split; tauto.
      - now apply forEach_frame. }
    repeat constructor; apply providers_sameFor; apply Hg; intros i m Hne;
      apply (mutators_frame i (id item) m rank Hne).
Qed.

Lemma menu_commands_touch_only_selection_witness :
  rankDataProvider Samples.table
    (service (ignoreItems (Some [{| id := 8%Z; itemType := "book";
                                    getField := fun _ => Some EmptyString |}]) startup))
    Samples.paper
  = rankDataProvider Samples.table (service startup) Samples.paper.
Proof.
  destruct (menu_commands_touch_only_selection A startup) as [_ H].
  specialize (H Samples.table
                [{| id := 8%Z; itemType := "book"; getField := fun _ => Some EmptyString |}]
                Samples.paper).
  assert (Hsel : Forall (fun it => id it <> id Samples.paper)
                   [{| id := 8%Z; itemType := "book";
                       getField := fun _ => Some EmptyString |}])
    by (repeat constructor; simpl; lia).
  specialize (H Hsel). inversion H as [|? ? _ H']. inversion H' as [|? ? _ H''].
  inversion H'' as [|? ? [Hrank _] _]. exact Hrank.
Defined.

(** X26.  The category column never reads the manual ranks: for an item
    that is not ignored and that the matcher finds, it shows the category
    of the entry found, with or without a manual rank; and the rank column
    shows the rank of that same entry when there is no manual rank. *)
Theorem columns_show_the_matched_entry (ccf : CCFRankService.t)
        (m : ManualCCFRankService.t) (item : Item) (e : CCFEntry) :
  isIgnored m (id item) = false ->
  CCFRankService.getEntryFromItem ccf (Some item) = Some e ->
  categoryDataProvider ccf m item = category e /\
  (forall r : Rank,
      categoryDataProvider ccf (fst (setRank (id item) r m)) item = category e) /\
  (getRank m (id item) = None -> rankDataProvider ccf m item = rankString (rank e)).
Proof.
  intros Hig He.
  assert (Hcat : CCFRankService.getCategoryFromItem ccf (Some item) = Some (category e))
    by (unfold CCFRankService.getCategoryFromItem; now rewrite He).
  split; [|split].
  - now rewrite (category_shown _ _ _ Hig), Hcat.
  - intros r. rewrite category_shown; [now rewrite Hcat|].
    unfold isIgnored; simpl. apply bool_decide_eq_false, removed_absent.
  - intros Hr. unfold rankDataProvider, CCFRankService.getRankFromItem.
    now rewrite Hig, Hr, He.
Qed.

Lemma columns_show_the_matched_entry_witness :
  categoryDataProvider Samples.table (fst (setRank 7 C (new freshPrefs))) Samples.paper
  = "Artificial Intelligence".
Proof.
  apply (proj1 (columns_show_the_matched_entry Samples.table
                  (fst (setRank 7 C (new freshPrefs))) Samples.paper Samples.cvpr
                  eq_refl ltac:(vm_compute; reflexivity))).
Defined.

End MenuFacts.
